(** * JNI stub lowering of the LLVM compiler back end (jni_compiler.cc)

    A shallow embedding of [JniCompiler::Compile] and of its helpers
    [CreateFunction], [GetFunctionType], [LoadFromObjectOffset] and
    [StoreToObjectOffset], together with an interpreter for the straight-line
    IR the compiler emits, and the properties of the generated stub. *)

From Stdlib Require Import List String Ascii ZArith Lia Bool PeanoNat.
From Stdlib Require Import DecimalString.
Import ListNotations.

Local Open Scope char_scope.
Local Open Scope list_scope.

(** ** IR data model *)

(** Well-known field offsets ([Thread::...Offset()], [Method::...Offset()],
    [JNIEnvExt::...Offset()]).  Their numeric values live in headers outside
    this file of the compiler; they name pairwise distinct fields, so they are
    kept symbolic. *)
Inductive Offset :=
| TopOfManagedStackOffset
| JniEnvOffset
| StateOffset
| NativeMethodOffset
| DeclaringClassOffset
| LocalRefCookieOffset
| SegmentStateOffset.

(** The two thread states the stub stores ([Thread::kNative],
    [Thread::kRunnable]). *)
Inductive ThreadState := kNative | kRunnable.

(** [runtime_support::...] entry points called by the stub. *)
Inductive RuntimeId :=
| GetCurrentThread
| PushShadowFrame
| PopShadowFrame
| DecodeJObjectInThread.

(** LLVM types, as far as the stub mentions them. *)
#[warnings="-register-all"]
Inductive Ty :=
| VoidTy
| Int1Ty | Int8Ty | Int16Ty | Int32Ty | Int64Ty
| FloatTy | DoubleTy
| JObjectTy
| PointerTy (t : Ty)
| ShadowFrameTy (sirt_size : nat)
| ElemPtrTy (aggregate : Ty) (path : list nat)
| FuncTy (ret : Ty) (params : list Ty).

Record FunctionType := mkFunctionType {
  ret_type : Ty;
  params_type : list Ty
}.

(** [t == irb_.getJObjectTy()] *)
Definition is_JObjectTy (t : Ty) : bool :=
  match t with JObjectTy => true | _ => false end.

(** Modelled from the spec: [IRBuilder::getJType(shorty, kAccurate)] is declared
    in ir_builder.h; every shorty tag is "tagged as reference or a specific
    primitive kind", and an unknown tag is fatal. *)
Definition getJType (shorty_jty : ascii) : option Ty :=
  if Ascii.eqb shorty_jty "V" then Some VoidTy
  else if Ascii.eqb shorty_jty "Z" then Some Int1Ty
  else if Ascii.eqb shorty_jty "B" then Some Int8Ty
  else if Ascii.eqb shorty_jty "C" then Some Int16Ty
  else if Ascii.eqb shorty_jty "S" then Some Int16Ty
  else if Ascii.eqb shorty_jty "I" then Some Int32Ty
  else if Ascii.eqb shorty_jty "J" then Some Int64Ty
  else if Ascii.eqb shorty_jty "F" then Some FloatTy
  else if Ascii.eqb shorty_jty "D" then Some DoubleTy
  else if Ascii.eqb shorty_jty "L" then Some JObjectTy
  else None.

(** IR values: operands of instructions.  An instruction result is named by
    the position of the instruction in the (single) basic block. *)
Inductive value :=
| VArg (i : nat)                   (* i-th formal argument of the stub *)
| VReg (n : nat)                   (* result of the n-th instruction *)
| VInt32 (n : nat)                 (* irb_.getInt32(n), n an unsigned count *)
| VThreadState (s : ThreadState)   (* irb_.getInt32(Thread::k...) *)
| VPtrEquivInt (o : Offset)        (* irb_.getPtrEquivInt(offset) *)
| VJNull                           (* irb_.getJNull() *)
| VZeroInit (t : Ty).              (* llvm::ConstantAggregateZero::get(t) *)

Inductive callee :=
| Runtime (f : RuntimeId)          (* irb_.GetRuntime(f) *)
| Indirect (code_addr : value).

Inductive instr :=
| IAlloca (t : Ty)
| IStore (v : value) (addr : value)
| ILoad (addr : value)
| IGEP (base : value) (idx : list value)
| IPtrDisp (base : value) (offset : value) (t : Ty)
| IBitCast (v : value) (t : Ty)
| IICmpEQ (a b : value)
| ISelect (c a b : value)
| ICall (f : callee) (args : list value)
| IRet (v : value)
| IRetVoid.

(** The builder's insertion point is the end of the entry block "B0"; the
    block is the list of instructions inserted so far. *)
Definition BasicBlock := list instr.

Definition Insert (i : instr) (bb : BasicBlock) : value * BasicBlock :=
  (VReg (List.length bb), bb ++ [i]).

Definition CreateCall (f : callee) (args : list value) := Insert (ICall f args).
Definition CreateAlloca (t : Ty) := Insert (IAlloca t).
Definition CreateStore (v addr : value) := Insert (IStore v addr).
Definition CreateLoad (addr : value) := Insert (ILoad addr).
Definition CreateGEP (base : value) (idx : list value) := Insert (IGEP base idx).
Definition CreateConstGEP2_32 (base : value) (i0 i1 : nat) :=
  Insert (IGEP base [VInt32 i0; VInt32 i1]).
Definition CreatePtrDisp (base offset : value) (t : Ty) :=
  Insert (IPtrDisp base offset t).
Definition CreateBitCast (v : value) (t : Ty) := Insert (IBitCast v t).
Definition CreateICmpEQ (a b : value) := Insert (IICmpEQ a b).
Definition CreateSelect (c a b : value) := Insert (ISelect c a b).
Definition CreateRet (v : value) := Insert (IRet v).
Definition CreateRetVoid := Insert IRetVoid.

(** ** Compiler-side data model *)

Record Argument := mkArgument {
  arg_no : nat;
  arg_type : Ty;
  arg_name : string
}.

Record Function := mkFunction {
  fn_name : string;
  fn_type : FunctionType;
  fn_args : list Argument;
  fn_body : BasicBlock
}.

Record Method := mkMethod {
  IsStatic : bool;
  LLVMLongName : string
}.

(** [dex_file_->GetMethodShorty(dex_file_->GetMethodId(method_idx), &size)];
    the size is the length of the string. *)
Record DexFile := mkDexFile {
  GetMethodShorty : nat -> string
}.

Inductive InstructionSet := kNone | kArm | kThumb2 | kX86 | kMips.

Record CompilationUnit := mkCompilationUnit {
  GetInstructionSet : InstructionSet;
  GetElfIndex : nat
}.

Record OatCompilationUnit := mkOatCompilationUnit {
  oat_access_flags_ : Z;
  oat_method_idx_ : nat;
  oat_dex_cache_ : nat -> option Method;     (* GetResolvedMethod; None is NULL *)
  oat_dex_file_ : DexFile
}.

Record JniCompiler := mkJniCompiler {
  cunit_ : CompilationUnit;
  access_flags_ : Z;
  method_idx_ : nat;
  dex_file_ : DexFile;
  method_ : Method
}.

Record CompiledMethod := mkCompiledMethod {
  cm_instruction_set : InstructionSet;
  cm_elf_idx : nat
}.

(** What a call of [Compile] leaves behind: the returned artifact, the function
    it added to the module, and whether the verifier printed a message. *)
Record Compiled := mkCompiled {
  compiled_method : CompiledMethod;
  func_ : Function;
  verifier_message : bool
}.

(** [kAccNative] of the dex access flags. *)
Definition kAccNative : Z := 256.

(** The constructor; [None] is a failed CHECK. *)
Definition JniCompiler_new (cunit : CompilationUnit)
    (oat_compilation_unit : OatCompilationUnit) : option JniCompiler :=
  match oat_dex_cache_ oat_compilation_unit (oat_method_idx_ oat_compilation_unit) with
  | None => None                                   (* CHECK_NE(method_, NULL) *)
  | Some m =>
    if Z.eqb (Z.land (oat_access_flags_ oat_compilation_unit) kAccNative) 0
    then None                                      (* CHECK(flags & kAccNative) *)
    else Some (mkJniCompiler cunit
                 (oat_access_flags_ oat_compilation_unit)
                 (oat_method_idx_ oat_compilation_unit)
                 (oat_dex_file_ oat_compilation_unit)
                 m)
  end.

(** ** GetFunctionType *)

(** [for (i = 1; i < shorty_size; ++i) args_type.push_back(getJType(shorty[i]))] *)
Fixpoint push_arg_types (shorty_tail : list ascii) (args_type : list Ty)
  : option (list Ty) :=
  match shorty_tail with
  | [] => Some args_type
  | c :: rest =>
    match getJType c with
    | None => None
    | Some t => push_arg_types rest (args_type ++ [t])
    end
  end.

Definition GetFunctionType (jc : JniCompiler) (method_idx : nat)
    (is_static is_target_function : bool) : option FunctionType :=
  let shorty := list_ascii_of_string (GetMethodShorty (dex_file_ jc) method_idx) in
  match shorty with
  | [] => None                                     (* CHECK_GE(shorty_size, 1u) *)
  | shorty0 :: shorty_tail =>
    match getJType shorty0 with
    | None => None
    | Some ret_type =>
      let args_type := [JObjectTy] in              (* method object pointer *)
      match
        (if negb is_static || is_target_function
         then option_map (fun t => args_type ++ [t]) (getJType "L")
         else Some args_type)
      with
      | None => None
      | Some args_type =>
        match push_arg_types shorty_tail args_type with
        | None => None
        | Some args_type => Some (mkFunctionType ret_type args_type)
        end
      end
    end
  end.

(** ** CreateFunction *)

(** The formal arguments [llvm::Function::Create] gives a function of the
    given type: numbered from 0, unnamed. *)
Fixpoint make_args (i : nat) (tys : list Ty) : list Argument :=
  match tys with
  | [] => []
  | t :: rest => mkArgument i t EmptyString :: make_args (S i) rest
  end.

Definition CreateFunction (jc : JniCompiler) : option Function :=
  let func_name := LLVMLongName (method_ jc) in
  match GetFunctionType jc (method_idx_ jc) (IsStatic (method_ jc)) false with
  | None => None
  | Some func_type =>
    Some (mkFunction func_name func_type (make_args 0 (params_type func_type)) [])
  end.

(** ** LoadFromObjectOffset / StoreToObjectOffset *)

Definition LoadFromObjectOffset (object_addr : value) (offset : Offset) (type : Ty)
    (bb : BasicBlock) : value * BasicBlock :=
  let llvm_offset := VPtrEquivInt offset in
  let '(value_addr, bb) := CreatePtrDisp object_addr llvm_offset (PointerTy type) bb in
  CreateLoad value_addr bb.

Definition StoreToObjectOffset (object_addr : value) (offset : Offset) (type : Ty)
    (v : value) (bb : BasicBlock) : BasicBlock :=
  let llvm_offset := VPtrEquivInt offset in
  let '(value_addr, bb) := CreatePtrDisp object_addr llvm_offset (PointerTy type) bb in
  snd (CreateStore v value_addr bb).

(** ** Compile *)

Definition setName (a : Argument) (name : string) : Argument :=
  mkArgument (arg_no a) (arg_type a) name.

(** StringPrintf("a%u", i) *)
Definition StringPrintf_a (i : nat) : string :=
  String.append "a" (NilEmpty.string_of_uint (Nat.to_uint i)).

(** Lines 82-88: name the actual arguments and count those of type jobject. *)
Fixpoint count_object_args (i : nat) (arg_iter : list Argument) (sirt_size : nat)
  : list Argument * nat :=
  match arg_iter with
  | [] => ([], sirt_size)
  | a :: rest =>
    let a := setName a (StringPrintf_a i) in
    let sirt_size := if is_JObjectTy (arg_type a) then S sirt_size else sirt_size in
    let '(rest, sirt_size) := count_object_args (S i) rest sirt_size in
    (a :: rest, sirt_size)
  end.

(** Lines 170-186: store the actual arguments to the SIRT and collect the
    arguments of the native call. *)
Fixpoint store_arguments (shadow_frame_ : value) (arg_iter : list Argument)
    (sirt_member_index : nat) (args : list value) (bb : BasicBlock)
  : nat * list value * BasicBlock :=
  match arg_iter with
  | [] => (sirt_member_index, args, bb)
  | a :: rest =>
    if is_JObjectTy (arg_type a) then
      let gep_index := [VInt32 0; VInt32 1; VInt32 sirt_member_index] in
      let sirt_member_index := S sirt_member_index in
      let '(sirt_field_addr, bb) := CreateGEP shadow_frame_ gep_index bb in
      let '(_, bb) := CreateStore (VArg (arg_no a)) sirt_field_addr bb in
      let '(equal_null, bb) := CreateICmpEQ (VArg (arg_no a)) VJNull bb in
      let '(cast, bb) := CreateBitCast sirt_field_addr JObjectTy bb in
      let '(arg, bb) := CreateSelect equal_null VJNull cast bb in
      store_arguments shadow_frame_ rest sirt_member_index (args ++ [arg]) bb
    else
      store_arguments shadow_frame_ rest sirt_member_index
                      (args ++ [VArg (arg_no a)]) bb
  end.

(** [verify] stands for [llvm::verifyFunction]: it answers [true] when the
    function is broken.  With [PrintMessageAction] it prints a message in that
    case and returns; the answer is not used by [Compile]. *)
Definition Compile (verify : Function -> bool) (jc : JniCompiler) : option Compiled :=
  let is_static := IsStatic (method_ jc) in
  match CreateFunction jc with
  | None => None
  | Some func =>
  match fn_args func with
  | [] => None                                     (* DCHECK_NE(arg_iter, arg_end) *)
  | method_arg :: arg_begin =>
  let method_arg := setName method_arg "method"%string in
  let method_object_addr := VArg (arg_no method_arg) in
  (* Count the number of Object* arguments *)
  let sirt_size := if is_static then 1 else 0 in
  let '(arg_begin, sirt_size) := count_object_args 0 arg_begin sirt_size in
  (* Start to build IR *)
  let bb : BasicBlock := fn_body func in
  let '(thread_object_addr, bb) := CreateCall (Runtime GetCurrentThread) [] bb in
  (* Shadow stack *)
  let shadow_frame_type := ShadowFrameTy sirt_size in
  let '(shadow_frame_, bb) := CreateAlloca shadow_frame_type bb in
  (* Zero-initialization of the shadow frame *)
  let zero_initializer := VZeroInit shadow_frame_type in
  let '(_, bb) := CreateStore zero_initializer shadow_frame_ bb in
  let zero := VInt32 0 in
  (* Store the method pointer *)
  let '(method_field_addr, bb) := CreateGEP shadow_frame_ [zero; zero; VInt32 2] bb in
  let '(_, bb) := CreateStore method_object_addr method_field_addr bb in
  (* Store the number of the pointer slots *)
  let '(size_field_addr, bb) := CreateGEP shadow_frame_ [zero; zero; VInt32 0] bb in
  let sirt_size_value := VInt32 sirt_size in
  let '(_, bb) := CreateStore sirt_size_value size_field_addr bb in
  (* Push the shadow frame *)
  let '(shadow_frame_upcast, bb) := CreateConstGEP2_32 shadow_frame_ 0 0 bb in
  let '(_, bb) := CreateCall (Runtime PushShadowFrame) [shadow_frame_upcast] bb in
  (* Set top of managed stack to the method field in the SIRT *)
  let bb := StoreToObjectOffset thread_object_addr TopOfManagedStackOffset
              (ElemPtrTy shadow_frame_type [0; 2]) method_field_addr bb in
  (* Get JNIEnv *)
  let '(jni_env_object_addr, bb) :=
    LoadFromObjectOffset thread_object_addr JniEnvOffset JObjectTy bb in
  (* Set thread state to kNative *)
  let bb := StoreToObjectOffset thread_object_addr StateOffset Int32Ty
              (VThreadState kNative) bb in
  (* Get callee code_addr *)
  match GetFunctionType jc (method_idx_ jc) is_static true with
  | None => None
  | Some target_type =>
  let '(code_addr, bb) :=
    LoadFromObjectOffset method_object_addr NativeMethodOffset
      (PointerTy (FuncTy (ret_type target_type) (params_type target_type))) bb in
  (* Load actual parameters *)
  let args := [jni_env_object_addr] in
  (* Store arguments to SIRT, and push back to args *)
  let sirt_member_index := 0 in
  (* Push class argument if this method is static *)
  let '(sirt_member_index, args, bb) :=
    if is_static then
      let '(class_object_addr, bb) :=
        LoadFromObjectOffset method_object_addr DeclaringClassOffset JObjectTy bb in
      let gep_index := [zero; VInt32 1; VInt32 sirt_member_index] in
      let sirt_member_index := S sirt_member_index in
      let '(sirt_field_addr, bb) := CreateGEP shadow_frame_ gep_index bb in
      let '(_, bb) := CreateStore class_object_addr sirt_field_addr bb in
      let '(cast, bb) := CreateBitCast sirt_field_addr JObjectTy bb in
      (sirt_member_index, args ++ [cast], bb)
    else (sirt_member_index, args, bb) in
  let '(sirt_member_index, args, bb) :=
    store_arguments shadow_frame_ arg_begin sirt_member_index args bb in
  (* saved_local_ref_cookie = env->local_ref_cookie *)
  let '(saved_local_ref_cookie, bb) :=
    LoadFromObjectOffset jni_env_object_addr LocalRefCookieOffset Int32Ty bb in
  (* env->local_ref_cookie = env->locals.segment_state *)
  let '(segment_state, bb) :=
    LoadFromObjectOffset jni_env_object_addr SegmentStateOffset Int32Ty bb in
  let bb := StoreToObjectOffset jni_env_object_addr LocalRefCookieOffset Int32Ty
              segment_state bb in
  (* Call!!! *)
  let '(retval, bb) := CreateCall (Indirect code_addr) args bb in
  (* Set thread state to kRunnable *)
  let bb := StoreToObjectOffset thread_object_addr StateOffset Int32Ty
              (VThreadState kRunnable) bb in
  (* Get return shorty *)
  match list_ascii_of_string (GetMethodShorty (dex_file_ jc) (method_idx_ jc)) with
  | [] => None                                     (* CHECK_GE(shorty_size, 1u) *)
  | ret_shorty :: _ =>
  let '(retval, bb) :=
    if Ascii.eqb ret_shorty "L" then
      (* If the return value is reference, it may point to SIRT, decode it. *)
      CreateCall (Runtime DecodeJObjectInThread) [thread_object_addr; retval] bb
    else (retval, bb) in
  (* env->locals.segment_state = env->local_ref_cookie *)
  let '(local_ref_cookie, bb) :=
    LoadFromObjectOffset jni_env_object_addr LocalRefCookieOffset Int32Ty bb in
  let bb := StoreToObjectOffset jni_env_object_addr SegmentStateOffset Int32Ty
              local_ref_cookie bb in
  (* env->local_ref_cookie = saved_local_ref_cookie *)
  let bb := StoreToObjectOffset jni_env_object_addr LocalRefCookieOffset Int32Ty
              saved_local_ref_cookie bb in
  (* Pop the shadow frame *)
  let '(_, bb) := CreateCall (Runtime PopShadowFrame) [] bb in
  (* Return! *)
  let '(_, bb) :=
    if negb (Ascii.eqb ret_shorty "V") then CreateRet retval bb
    else CreateRetVoid bb in
  let func := mkFunction (fn_name func) (fn_type func) (method_arg :: arg_begin) bb in
  (* Verify the generated bitcode *)
  let broken := verify func in
  Some (mkCompiled
          (mkCompiledMethod (GetInstructionSet (cunit_ jc)) (GetElfIndex (cunit_ jc)))
          func broken)
  end end end end.

(** *** Sample methods *)

Definition sample_cunit : CompilationUnit := mkCompilationUnit kThumb2 7.

Definition sample_jc (is_static : bool) (shorty : string) : JniCompiler :=
  mkJniCompiler sample_cunit kAccNative 0 (mkDexFile (fun _ => shorty))
                (mkMethod is_static "stub"%string).

Definition body_of (r : option Compiled) : BasicBlock :=
  match r with Some c => fn_body (func_ c) | None => [] end.

(** ** Execution of the generated stub

    The stub is one basic block, so its instructions run once each, in the
    order in which they were inserted. *)

(** Run-time values. *)
Inductive rv :=
| RUndef                            (* contents of fresh stack memory *)
| RVoid                             (* result of a store or a void call *)
| RNull
| RInt (z : Z)
| RBool (b : bool)
| RState (s : ThreadState)
| RObj (a : nat)                    (* address of a runtime object *)
| RFrame                            (* the stub's shadow frame *)
| RArtFrame                         (* its header, element [0, 0] *)
| RHeader (k : nat)                 (* header field [0, 0, k] *)
| RSlot (k : nat)                   (* SIRT slot [0, 1, k] *)
| RField (a : nat) (o : Offset)     (* field of the object at a *)
| RZeroFrame (sirt_size : nat).     (* zero aggregate of a shadow frame type *)

Definition Offset_code (o : Offset) : nat :=
  match o with
  | TopOfManagedStackOffset => 0
  | JniEnvOffset => 1
  | StateOffset => 2
  | NativeMethodOffset => 3
  | DeclaringClassOffset => 4
  | LocalRefCookieOffset => 5
  | SegmentStateOffset => 6
  end.

Definition Offset_eqb (o o' : Offset) : bool :=
  Nat.eqb (Offset_code o) (Offset_code o').

Definition is_null (v : rv) : bool :=
  match v with RNull => true | _ => false end.

Definition ThreadState_eqb (s s' : ThreadState) : bool :=
  match s, s' with
  | kNative, kNative | kRunnable, kRunnable => true
  | _, _ => false
  end.

(** Bitwise equality of two run-time values (icmp eq). *)
Definition rv_eqb (x y : rv) : bool :=
  match x, y with
  | RUndef, RUndef | RVoid, RVoid | RNull, RNull
  | RFrame, RFrame | RArtFrame, RArtFrame => true
  | RInt a, RInt b => Z.eqb a b
  | RBool a, RBool b => Bool.eqb a b
  | RState a, RState b => ThreadState_eqb a b
  | RObj a, RObj b => Nat.eqb a b
  | RHeader a, RHeader b => Nat.eqb a b
  | RSlot a, RSlot b => Nat.eqb a b
  | RField a o, RField b o' => Nat.eqb a b && Offset_eqb o o'
  | RZeroFrame a, RZeroFrame b => Nat.eqb a b
  | _, _ => false
  end.

Record ShadowFrame := mkShadowFrame {
  sf_header : nat -> rv;
  sf_slots : list rv
}.

Record memory := mkMemory {
  heap : nat -> Offset -> rv;         (* fields of runtime objects *)
  shadow : option ShadowFrame;        (* the stub's stack allocation *)
  frame_stack : list rv               (* the thread's shadow frame stack *)
}.

Definition hupd (h : nat -> Offset -> rv) (a : nat) (o : Offset) (v : rv)
  : nat -> Offset -> rv :=
  fun a' o' =>
    if Offset_eqb o o' then (if Nat.eqb a a' then v else h a' o') else h a' o'.

Definition fupd (h : nat -> rv) (k : nat) (v : rv) : nat -> rv :=
  fun k' => if Nat.eqb k k' then v else h k'.

(** Write slot [k]; [None] outside the frame. *)
Fixpoint update_nth (l : list rv) (k : nat) (v : rv) : option (list rv) :=
  match l, k with
  | [], _ => None
  | _ :: r, 0 => Some (v :: r)
  | x :: r, S k' => option_map (cons x) (update_nth r k' v)
  end.

(** The collaborators of the running stub.  Modelled from the spec: the runtime
    support functions are declared in runtime_support_func.h; the stub "pushes
    this frame's address onto the current thread's frame stack", unlinks it
    with the pop call, and the decode call takes "(thread handle, raw return
    value)" and produces "the canonical object handle".  The foreign function
    receives the marshalled arguments and may change the memory at will. *)
Record World := mkWorld {
  current_thread : nat;
  native_code : rv -> list rv -> memory -> rv * memory;
  decode_jobject : memory -> rv -> rv -> rv
}.

Inductive event :=
| ELoad (addr v : rv)
| EStore (addr v : rv)
| ERuntimeCall (f : RuntimeId) (args : list rv)
| ENativeCall (code : rv) (args : list rv)
| EReturn (v : option rv).

Record cpu := mkCpu {
  regs : list rv;                     (* results of the instructions run so far *)
  mem : memory;
  trace : list event;
  returned : option (option rv)
}.

Definition eval (fargs : list rv) (rs : list rv) (v : value) : option rv :=
  match v with
  | VArg i => nth_error fargs i
  | VReg n => nth_error rs n
  | VInt32 n => Some (RInt (Z.of_nat n))
  | VThreadState s => Some (RState s)
  | VPtrEquivInt _ => None
  | VJNull => Some RNull
  | VZeroInit (ShadowFrameTy n) => Some (RZeroFrame n)
  | VZeroInit _ => None
  end.

Fixpoint eval_list (fargs rs : list rv) (vs : list value) : option (list rv) :=
  match vs with
  | [] => Some []
  | v :: r =>
    match eval fargs rs v, eval_list fargs rs r with
    | Some x, Some xs => Some (x :: xs)
    | _, _ => None
    end
  end.

Definition zero_header : nat -> rv :=
  fun k => if Nat.eqb k 0 then RInt 0 else RNull.

Definition store (m : memory) (addr v : rv) : option memory :=
  match addr with
  | RField a o => Some (mkMemory (hupd (heap m) a o v) (shadow m) (frame_stack m))
  | RFrame =>
    match v, shadow m with
    | RZeroFrame n, Some sf =>
      if Nat.eqb n (List.length (sf_slots sf))
      then Some (mkMemory (heap m)
                   (Some (mkShadowFrame zero_header (repeat RNull n)))
                   (frame_stack m))
      else None
    | _, _ => None
    end
  | RHeader k =>
    match shadow m with
    | Some sf =>
      Some (mkMemory (heap m)
              (Some (mkShadowFrame (fupd (sf_header sf) k v) (sf_slots sf)))
              (frame_stack m))
    | None => None
    end
  | RSlot k =>
    match shadow m with
    | Some sf =>
      match update_nth (sf_slots sf) k v with
      | Some slots =>
        Some (mkMemory (heap m) (Some (mkShadowFrame (sf_header sf) slots))
                (frame_stack m))
      | None => None
      end
    | None => None
    end
  | _ => None
  end.

Definition load (m : memory) (addr : rv) : option rv :=
  match addr with
  | RField a o => Some (heap m a o)
  | RHeader k => option_map (fun sf => sf_header sf k) (shadow m)
  | RSlot k =>
    match shadow m with
    | Some sf => nth_error (sf_slots sf) k
    | None => None
    end
  | _ => None
  end.

Definition gep (base : rv) (idx : list rv) : option rv :=
  match base, idx with
  | RFrame, [RInt 0; RInt 0] => Some RArtFrame
  | RFrame, [RInt 0; RInt 0; RInt k] => Some (RHeader (Z.to_nat k))
  | RFrame, [RInt 0; RInt 1; RInt k] => Some (RSlot (Z.to_nat k))
  | _, _ => None
  end.

(** One instruction: its result, the memory after it and what it did.  Memory
    is untyped: the pointee type of a displacement and the target type of a
    cast are carried by the instruction but not interpreted. *)
Definition step (w : World) (fargs : list rv) (i : instr) (c : cpu) : option cpu :=
  let ev := eval fargs (regs c) in
  let next r m es := Some (mkCpu (regs c ++ [r]) m (trace c ++ es) (returned c)) in
  match i with
  | IAlloca (ShadowFrameTy n) =>
    next RFrame
         (mkMemory (heap (mem c))
                   (Some (mkShadowFrame (fun _ => RUndef) (repeat RUndef n)))
                   (frame_stack (mem c))) []
  | IAlloca _ => None
  | IStore v addr =>
    match ev v, ev addr with
    | Some x, Some a =>
      match store (mem c) a x with
      | Some m => next RVoid m [EStore a x]
      | None => None
      end
    | _, _ => None
    end
  | ILoad addr =>
    match ev addr with
    | Some a =>
      match load (mem c) a with
      | Some x => next x (mem c) [ELoad a x]
      | None => None
      end
    | None => None
    end
  | IGEP base idx =>
    match ev base, eval_list fargs (regs c) idx with
    | Some b, Some ks =>
      match gep b ks with
      | Some a => next a (mem c) []
      | None => None
      end
    | _, _ => None
    end
  | IPtrDisp base (VPtrEquivInt o) _ =>
    match ev base with
    | Some (RObj a) => next (RField a o) (mem c) []
    | _ => None
    end
  | IPtrDisp _ _ _ => None
  | IBitCast v _ =>
    match ev v with
    | Some x => next x (mem c) []
    | None => None
    end
  | IICmpEQ a b =>
    match ev a, ev b with
    | Some x, Some y => next (RBool (rv_eqb x y)) (mem c) []
    | _, _ => None
    end
  | ISelect cnd a b =>
    match ev cnd, ev a, ev b with
    | Some (RBool t), Some x, Some y => next (if t then x else y) (mem c) []
    | _, _, _ => None
    end
  | ICall (Runtime GetCurrentThread) [] =>
    next (RObj (current_thread w)) (mem c) [ERuntimeCall GetCurrentThread []]
  | ICall (Runtime PushShadowFrame) [v] =>
    match ev v with
    | Some x =>
      next RVoid
           (mkMemory (heap (mem c)) (shadow (mem c)) (x :: frame_stack (mem c)))
           [ERuntimeCall PushShadowFrame [x]]
    | None => None
    end
  | ICall (Runtime PopShadowFrame) [] =>
    match frame_stack (mem c) with
    | _ :: rest =>
      next RVoid (mkMemory (heap (mem c)) (shadow (mem c)) rest)
           [ERuntimeCall PopShadowFrame []]
    | [] => None
    end
  | ICall (Runtime DecodeJObjectInThread) [t; v] =>
    match ev t, ev v with
    | Some x, Some y =>
      next (decode_jobject w (mem c) x y) (mem c)
           [ERuntimeCall DecodeJObjectInThread [x; y]]
    | _, _ => None
    end
  | ICall (Runtime _) _ => None
  | ICall (Indirect code) args =>
    match ev code, eval_list fargs (regs c) args with
    | Some f, Some xs =>
      let '(r, m) := native_code w f xs (mem c) in
      next r m [ENativeCall f xs]
    | _, _ => None
    end
  | IRet v =>
    match ev v, returned c with
    | Some x, None =>
      Some (mkCpu (regs c ++ [RVoid]) (mem c) (trace c ++ [EReturn (Some x)])
                  (Some (Some x)))
    | _, _ => None
    end
  | IRetVoid =>
    match returned c with
    | None =>
      Some (mkCpu (regs c ++ [RVoid]) (mem c) (trace c ++ [EReturn None])
                  (Some None))
    | Some _ => None
    end
  end.

Fixpoint exec (w : World) (fargs : list rv) (bb : BasicBlock) (c : cpu)
  : option cpu :=
  match bb with
  | [] => Some c
  | i :: rest =>
    match step w fargs i c with
    | Some c' => exec w fargs rest c'
    | None => None
    end
  end.

Definition init_cpu (m : memory) : cpu := mkCpu [] m [] None.

(** Calling the stub [f] with actual arguments [fargs] in memory [m]. *)
Definition run_stub (w : World) (f : Function) (fargs : list rv) (m : memory)
  : option cpu :=
  exec w fargs (fn_body f) (init_cpu m).

(** *** A sample world

    The thread is object 1, its environment object 2, the method object 3.
    The foreign function creates [n] local references, which advances the
    segment state of the environment by [n], and returns its last argument
    (or null). *)
Definition sample_heap (cookie seg : Z) (class : rv) : nat -> Offset -> rv :=
  fun a o =>
    match a, o with
    | 1, JniEnvOffset => RObj 2
    | 1, StateOffset => RState kRunnable
    | 2, LocalRefCookieOffset => RInt cookie
    | 2, SegmentStateOffset => RInt seg
    | 3, NativeMethodOffset => RObj 99
    | 3, DeclaringClassOffset => class
    | _, _ => RNull
    end.

Definition sample_memory (cookie seg : Z) (class : rv) : memory :=
  mkMemory (sample_heap cookie seg class) None [].

Definition advance_segment (n : Z) (v : rv) : rv :=
  match v with RInt z => RInt (z + n) | _ => v end.

Definition sample_native (n : Z) : rv -> list rv -> memory -> rv * memory :=
  fun _ args m =>
    (last args RNull,
     mkMemory (hupd (heap m) 2 SegmentStateOffset
                    (advance_segment n (heap m 2 SegmentStateOffset)))
              (shadow m) (frame_stack m)).

(** Decoding a SIRT slot address reads the slot; other values are taken as
    they are. *)
Definition sample_decode (m : memory) (thread v : rv) : rv :=
  match v with
  | RSlot k =>
    match shadow m with
    | Some sf => nth k (sf_slots sf) RNull
    | None => RNull
    end
  | _ => v
  end.

Definition sample_world (n : Z) : World := mkWorld 1 (sample_native n) sample_decode.

Definition run_sample (is_static : bool) (shorty : string) (n : Z)
    (fargs : list rv) (m : memory) : option cpu :=
  match Compile (fun _ => false) (sample_jc is_static shorty) with
  | Some c => run_stub (sample_world n) (func_ c) fargs m
  | None => None
  end.

(** ** Signatures *)

Definition shorty_of (jc : JniCompiler) : list ascii :=
  list_ascii_of_string (GetMethodShorty (dex_file_ jc) (method_idx_ jc)).

Fixpoint getJTypes (cs : list ascii) : option (list Ty) :=
  match cs with
  | [] => Some []
  | c :: rest =>
    match getJType c, getJTypes rest with
    | Some t, Some ts => Some (t :: ts)
    | _, _ => None
    end
  end.

(** The types of the declared arguments of the method: the shorty without its
    first character, the return type. *)
Definition declared_types (jc : JniCompiler) : option (list Ty) :=
  getJTypes (tl (shorty_of jc)).

(** The return tag of the method. *)
Definition ret_shorty_of (jc : JniCompiler) : option ascii :=
  hd_error (shorty_of jc).

(** The shorty resolves: it has a return tag and every tag is known. *)
Definition resolved (jc : JniCompiler) (ret_shorty : ascii) (dtys : list Ty) : Prop :=
  ret_shorty_of jc = Some ret_shorty /\
  getJType ret_shorty <> None /\
  declared_types jc = Some dtys.

(** Number of reference-typed entries. *)
Definition count_refs (tys : list Ty) : nat :=
  List.length (filter is_JObjectTy tys).

(** The types of the actual arguments of the stub after the method pointer:
    the receiver of an instance method, then the declared arguments. *)
Definition actual_types (is_static : bool) (dtys : list Ty) : list Ty :=
  (if is_static then [] else [JObjectTy]) ++ dtys.

Fixpoint named_args (i argno : nat) (tys : list Ty) : list Argument :=
  match tys with
  | [] => []
  | t :: rest => mkArgument argno t (StringPrintf_a i) :: named_args (S i) (S argno) rest
  end.


(** ** The shape of the generated body

    The instructions [Compile] inserts, written out by position: [prologue]
    (lines 93-146), [class_insns] (lines 160-169, static methods only),
    [marshal_insns] (lines 170-186) and [epilogue] (lines 189-248).  That
    [Compile] produces exactly [stub_body] is lemma [Compile_eq]. *)

Definition prologue (sirt_size : nat) (target_type : FunctionType) : list instr :=
  [ ICall (Runtime GetCurrentThread) [];
    IAlloca (ShadowFrameTy sirt_size);
    IStore (VZeroInit (ShadowFrameTy sirt_size)) (VReg 1);
    IGEP (VReg 1) [VInt32 0; VInt32 0; VInt32 2];
    IStore (VArg 0) (VReg 3);
    IGEP (VReg 1) [VInt32 0; VInt32 0; VInt32 0];
    IStore (VInt32 sirt_size) (VReg 5);
    IGEP (VReg 1) [VInt32 0; VInt32 0];
    ICall (Runtime PushShadowFrame) [VReg 7];
    IPtrDisp (VReg 0) (VPtrEquivInt TopOfManagedStackOffset)
             (PointerTy (ElemPtrTy (ShadowFrameTy sirt_size) [0; 2]));
    IStore (VReg 3) (VReg 9);
    IPtrDisp (VReg 0) (VPtrEquivInt JniEnvOffset) (PointerTy JObjectTy);
    ILoad (VReg 11);
    IPtrDisp (VReg 0) (VPtrEquivInt StateOffset) (PointerTy Int32Ty);
    IStore (VThreadState kNative) (VReg 13);
    IPtrDisp (VArg 0) (VPtrEquivInt NativeMethodOffset)
             (PointerTy (PointerTy (FuncTy (ret_type target_type)
                                           (params_type target_type))));
    ILoad (VReg 15) ].

Definition class_insns : list instr :=
  [ IPtrDisp (VArg 0) (VPtrEquivInt DeclaringClassOffset) (PointerTy JObjectTy);
    ILoad (VReg 17);
    IGEP (VReg 1) [VInt32 0; VInt32 1; VInt32 0];
    IStore (VReg 18) (VReg 19);
    IBitCast (VReg 19) JObjectTy ].

Fixpoint marshal_insns (base argno k : nat) (tys : list Ty) : list instr :=
  match tys with
  | [] => []
  | t :: rest =>
    if is_JObjectTy t then
      [ IGEP (VReg 1) [VInt32 0; VInt32 1; VInt32 k];
        IStore (VArg argno) (VReg base);
        IICmpEQ (VArg argno) VJNull;
        IBitCast (VReg base) JObjectTy;
        ISelect (VReg (base + 2)) VJNull (VReg (base + 3)) ]
      ++ marshal_insns (base + 5) (S argno) (S k) rest
    else marshal_insns base (S argno) k rest
  end.

Fixpoint marshal_values (base argno : nat) (tys : list Ty) : list value :=
  match tys with
  | [] => []
  | t :: rest =>
    if is_JObjectTy t
    then VReg (base + 4) :: marshal_values (base + 5) (S argno) rest
    else VArg argno :: marshal_values base (S argno) rest
  end.

Definition epilogue (base : nat) (args : list value) (ret_shorty : ascii)
  : list instr :=
  let is_ref := Ascii.eqb ret_shorty "L" in
  let b2 := if is_ref then base + 10 else base + 9 in
  [ IPtrDisp (VReg 12) (VPtrEquivInt LocalRefCookieOffset) (PointerTy Int32Ty);
    ILoad (VReg base);
    IPtrDisp (VReg 12) (VPtrEquivInt SegmentStateOffset) (PointerTy Int32Ty);
    ILoad (VReg (base + 2));
    IPtrDisp (VReg 12) (VPtrEquivInt LocalRefCookieOffset) (PointerTy Int32Ty);
    IStore (VReg (base + 3)) (VReg (base + 4));
    ICall (Indirect (VReg 16)) args;
    IPtrDisp (VReg 0) (VPtrEquivInt StateOffset) (PointerTy Int32Ty);
    IStore (VThreadState kRunnable) (VReg (base + 7)) ]
  ++ (if is_ref
      then [ICall (Runtime DecodeJObjectInThread) [VReg 0; VReg (base + 6)]]
      else [])
  ++ [ IPtrDisp (VReg 12) (VPtrEquivInt LocalRefCookieOffset) (PointerTy Int32Ty);
       ILoad (VReg b2);
       IPtrDisp (VReg 12) (VPtrEquivInt SegmentStateOffset) (PointerTy Int32Ty);
       IStore (VReg (b2 + 1)) (VReg (b2 + 2));
       IPtrDisp (VReg 12) (VPtrEquivInt LocalRefCookieOffset) (PointerTy Int32Ty);
       IStore (VReg (base + 1)) (VReg (b2 + 4));
       ICall (Runtime PopShadowFrame) [];
       if negb (Ascii.eqb ret_shorty "V")
       then IRet (VReg (if is_ref then base + 9 else base + 6))
       else IRetVoid ].

(** First SIRT slot and first block position of the declared-argument loop. *)
Definition first_slot (is_static : bool) : nat := if is_static then 1 else 0.
Definition first_pos (is_static : bool) : nat := if is_static then 22 else 17.

(** The operands of the foreign call. *)
Definition call_args (is_static : bool) (atys : list Ty) : list value :=
  VReg 12 :: (if is_static then [VReg 21] else [])
          ++ marshal_values (first_pos is_static) 1 atys.

Definition target_type_of (ret : Ty) (dtys : list Ty) : FunctionType :=
  mkFunctionType ret (JObjectTy :: JObjectTy :: dtys).

Definition stub_body (is_static : bool) (ret_shorty : ascii) (ret : Ty)
    (dtys : list Ty) : list instr :=
  let atys := actual_types is_static dtys in
  prologue (first_slot is_static + count_refs atys) (target_type_of ret dtys)
  ++ (if is_static then class_insns else [])
  ++ marshal_insns (first_pos is_static) 1 (first_slot is_static) atys
  ++ epilogue (first_pos is_static + 5 * count_refs atys)
              (call_args is_static atys) ret_shorty.

(** ** The expected run of the stub *)

(** The values of the reference-typed actual arguments, in order. *)
Fixpoint ref_values (tys : list Ty) (vals : list rv) : list rv :=
  match tys, vals with
  | t :: ts, v :: vs =>
    if is_JObjectTy t then v :: ref_values ts vs else ref_values ts vs
  | _, _ => []
  end.

(** What the foreign function receives for the actual arguments when the next
    unused slot is [k]. *)
Fixpoint marshal_rt (k : nat) (tys : list Ty) (vals : list rv) : list rv :=
  match tys, vals with
  | t :: ts, v :: vs =>
    if is_JObjectTy t
    then (if is_null v then RNull else RSlot k) :: marshal_rt (S k) ts vs
    else v :: marshal_rt k ts vs
  | _, _ => []
  end.

(** Stores of the given values into consecutive slots from [k] on. *)
Fixpoint slot_stores (k : nat) (vals : list rv) : list event :=
  match vals with
  | [] => []
  | v :: vs => EStore (RSlot k) v :: slot_stores (S k) vs
  end.

(** The foreign function returns with the thread's frame stack as it found
    it: frames linked during the call are unlinked again. *)
Definition keeps_frame_stack (w : World) : Prop :=
  forall f xs m, frame_stack (snd (native_code w f xs m)) = frame_stack m.

(** Number of slots of the frame the stub allocates. *)
Definition sirt_size_of (is_static : bool) (atys : list Ty) : nat :=
  first_slot is_static + count_refs atys.

(** What the stub stores into the SIRT, slot by slot from slot 0. *)
Definition stored_refs (is_static : bool) (class : rv) (atys : list Ty)
    (avals : list rv) : list rv :=
  (if is_static then [class] else []) ++ ref_values atys avals.

(** What the foreign function receives. *)
Definition native_args (is_static : bool) (e : nat) (atys : list Ty)
    (avals : list rv) : list rv :=
  RObj e :: (if is_static then [RSlot 0] else [])
         ++ marshal_rt (first_slot is_static) atys avals.

(** The memory in which the foreign function starts. *)
Definition memory_at_call (t m e : nat) (is_static : bool) (atys : list Ty)
    (avals : list rv) (mem0 : memory) : memory :=
  mkMemory
    (hupd (hupd (hupd (heap mem0) t TopOfManagedStackOffset (RHeader 2))
                t StateOffset (RState kNative))
          e LocalRefCookieOffset (heap mem0 e SegmentStateOffset))
    (Some (mkShadowFrame
             (fupd (fupd zero_header 2 (RObj m)) 0
                   (RInt (Z.of_nat (sirt_size_of is_static atys))))
             (stored_refs is_static (heap mem0 m DeclaringClassOffset) atys avals)))
    (RArtFrame :: frame_stack mem0).

(** What the stub does up to the foreign call. *)
Definition trace_before_call (t m e : nat) (is_static : bool) (atys : list Ty)
    (avals : list rv) (mem0 : memory) : list event :=
  [ ERuntimeCall GetCurrentThread [];
    EStore RFrame (RZeroFrame (sirt_size_of is_static atys));
    EStore (RHeader 2) (RObj m);
    EStore (RHeader 0) (RInt (Z.of_nat (sirt_size_of is_static atys)));
    ERuntimeCall PushShadowFrame [RArtFrame];
    EStore (RField t TopOfManagedStackOffset) (RHeader 2);
    ELoad (RField t JniEnvOffset) (RObj e);
    EStore (RField t StateOffset) (RState kNative);
    ELoad (RField m NativeMethodOffset) (heap mem0 m NativeMethodOffset) ]
  ++ (if is_static
      then [ELoad (RField m DeclaringClassOffset) (heap mem0 m DeclaringClassOffset)]
      else [])
  ++ slot_stores 0 (stored_refs is_static (heap mem0 m DeclaringClassOffset) atys avals)
  ++ [ ELoad (RField e LocalRefCookieOffset) (heap mem0 e LocalRefCookieOffset);
       ELoad (RField e SegmentStateOffset) (heap mem0 e SegmentStateOffset);
       EStore (RField e LocalRefCookieOffset) (heap mem0 e SegmentStateOffset) ].

(** The memory in which the return value is decoded: the one the foreign
    function left, with the thread runnable again. *)
Definition memory_at_decode (t : nat) (m_r : memory) : memory :=
  mkMemory (hupd (heap m_r) t StateOffset (RState kRunnable))
           (shadow m_r) (frame_stack m_r).

(** The value the stub hands back for the raw foreign result [raw]. *)
Definition final_value (w : World) (r : ascii) (raw : rv) (m_r : memory) : option rv :=
  if Ascii.eqb r "V" then None
  else Some (if Ascii.eqb r "L"
             then decode_jobject w (memory_at_decode (current_thread w) m_r)
                                 (RObj (current_thread w)) raw
             else raw).

(** What the stub does after the foreign call returned [raw] in memory [m_r];
    [saved] is the cookie read before the call. *)
Definition trace_after_call (w : World) (e : nat) (r : ascii) (raw : rv)
    (m_r : memory) (saved : rv) : list event :=
  let t := current_thread w in
  [ EStore (RField t StateOffset) (RState kRunnable) ]
  ++ (if Ascii.eqb r "L"
      then [ERuntimeCall DecodeJObjectInThread [RObj t; raw]]
      else [])
  ++ [ ELoad (RField e LocalRefCookieOffset) (heap m_r e LocalRefCookieOffset);
       EStore (RField e SegmentStateOffset) (heap m_r e LocalRefCookieOffset);
       EStore (RField e LocalRefCookieOffset) saved;
       ERuntimeCall PopShadowFrame [];
       EReturn (final_value w r raw m_r) ].

(** The memory the stub leaves behind. *)
Definition memory_at_return (t e : nat) (m_r : memory) (saved : rv)
    (stack : list rv) : memory :=
  mkMemory
    (hupd (hupd (hupd (heap m_r) t StateOffset (RState kRunnable))
                e SegmentStateOffset (heap m_r e LocalRefCookieOffset))
          e LocalRefCookieOffset saved)
    (shadow m_r) stack.

(** The foreign call the stub performs for actual arguments [avals]: its raw
    result and the memory it leaves. *)
Definition foreign_call (w : World) (is_static : bool) (dtys : list Ty)
    (m e : nat) (avals : list rv) (mem0 : memory) : rv * memory :=
  let atys := actual_types is_static dtys in
  native_code w (heap mem0 m NativeMethodOffset)
              (native_args is_static e atys avals)
              (memory_at_call (current_thread w) m e is_static atys avals mem0).

(** Everything the stub does, in order. *)
Definition expected_trace (w : World) (is_static : bool) (r : ascii)
    (dtys : list Ty) (m e : nat) (avals : list rv) (mem0 : memory) : list event :=
  let atys := actual_types is_static dtys in
  let fc := foreign_call w is_static dtys m e avals mem0 in
  trace_before_call (current_thread w) m e is_static atys avals mem0
  ++ [ENativeCall (heap mem0 m NativeMethodOffset)
                  (native_args is_static e atys avals)]
  ++ trace_after_call w e r (fst fc) (snd fc) (heap mem0 e LocalRefCookieOffset).

(** The stub is called by managed code: the first actual argument is the
    method object, there is one actual argument per formal one, the current
    thread has an environment, and the foreign function is well behaved. *)
Definition well_called (w : World) (f : Function) (fargs : list rv)
    (mem0 : memory) (m e : nat) : Prop :=
  hd_error fargs = Some (RObj m) /\
  List.length fargs = List.length (fn_args f) /\
  heap mem0 (current_thread w) JniEnvOffset = RObj e /\
  keeps_frame_stack w.

(** The foreign function leaves the saved-cookie field of the environment
    alone; creating local references only moves the segment state. *)
Definition keeps_cookie (w : World) (e : nat) : Prop :=
  forall f xs m,
    heap (snd (native_code w f xs m)) e LocalRefCookieOffset =
    heap m e LocalRefCookieOffset.

(** *** Classifying events *)

Definition is_push (ev : event) : bool :=
  match ev with ERuntimeCall PushShadowFrame _ => true | _ => false end.

Definition is_pop (ev : event) : bool :=
  match ev with ERuntimeCall PopShadowFrame _ => true | _ => false end.

Definition is_decode (ev : event) : bool :=
  match ev with ERuntimeCall DecodeJObjectInThread _ => true | _ => false end.

Definition is_slot_store (ev : event) : bool :=
  match ev with EStore (RSlot _) _ => true | _ => false end.

Definition is_state_store (s : ThreadState) (ev : event) : bool :=
  match ev with
  | EStore (RField _ StateOffset) (RState s') => ThreadState_eqb s s'
  | _ => false
  end.

Definition is_native_call (ev : event) : bool :=
  match ev with ENativeCall _ _ => true | _ => false end.

Definition is_return (ev : event) : bool :=
  match ev with EReturn _ => true | _ => false end.

(** Every [p] event of the trace happens strictly before every [q] event. *)
Definition occurs_before (p q : event -> bool) (tr : list event) : Prop :=
  forall i j a b,
    nth_error tr i = Some a -> nth_error tr j = Some b ->
    p a = true -> q b = true -> i < j.

(** Some event of the trace satisfies [p]. *)
Definition occurs (p : event -> bool) (tr : list event) : Prop :=
  existsb p tr = true.

(** The kinds of event that occur before the foreign call. *)
Definition prologue_event (ev : event) : bool :=
  match ev with
  | ELoad _ _ | EStore _ _ => true
  | ERuntimeCall GetCurrentThread _ | ERuntimeCall PushShadowFrame _ => true
  | _ => false
  end.

(** The run of the stub, stage by stage, in the order of the code:
    frame allocated and pushed; thread state native; arguments bound; scope
    opened; foreign call; thread state runnable; return decoded; scope
    restored; frame unlinked; return. *)
Definition stages (w : World) (is_static : bool) (r : ascii) (dtys : list Ty)
    (m e : nat) (avals : list rv) (mem0 : memory) : list (list event) :=
  let t := current_thread w in
  let atys := actual_types is_static dtys in
  let fc := foreign_call w is_static dtys m e avals mem0 in
  let class := heap mem0 m DeclaringClassOffset in
  [ [ ERuntimeCall GetCurrentThread [];
      EStore RFrame (RZeroFrame (sirt_size_of is_static atys));
      EStore (RHeader 2) (RObj m);
      EStore (RHeader 0) (RInt (Z.of_nat (sirt_size_of is_static atys)));
      ERuntimeCall PushShadowFrame [RArtFrame];
      EStore (RField t TopOfManagedStackOffset) (RHeader 2);
      ELoad (RField t JniEnvOffset) (RObj e) ];
    [ EStore (RField t StateOffset) (RState kNative);
      ELoad (RField m NativeMethodOffset) (heap mem0 m NativeMethodOffset) ];
    (if is_static then [ELoad (RField m DeclaringClassOffset) class] else [])
      ++ slot_stores 0 (stored_refs is_static class atys avals);
    [ ELoad (RField e LocalRefCookieOffset) (heap mem0 e LocalRefCookieOffset);
      ELoad (RField e SegmentStateOffset) (heap mem0 e SegmentStateOffset);
      EStore (RField e LocalRefCookieOffset) (heap mem0 e SegmentStateOffset) ];
    [ ENativeCall (heap mem0 m NativeMethodOffset)
                  (native_args is_static e atys avals) ];
    [ EStore (RField t StateOffset) (RState kRunnable) ];
    (if Ascii.eqb r "L"
     then [ERuntimeCall DecodeJObjectInThread [RObj t; fst fc]]
     else []);
    [ ELoad (RField e LocalRefCookieOffset) (heap (snd fc) e LocalRefCookieOffset);
      EStore (RField e SegmentStateOffset) (heap (snd fc) e LocalRefCookieOffset);
      EStore (RField e LocalRefCookieOffset) (heap mem0 e LocalRefCookieOffset) ];
    [ ERuntimeCall PopShadowFrame [] ];
    [ EReturn (final_value w r (fst fc) (snd fc)) ] ].

(** Position of the [j]-th declared argument among the actual arguments of
    the stub: after the method pointer and, for an instance method, the
    receiver. *)
Definition declared_pos (is_static : bool) (j : nat) : nat :=
  (if is_static then 1 else 2) + j.

(** The events after the foreign call. *)
Fixpoint after_call (tr : list event) : list event :=
  match tr with
  | [] => []
  | ENativeCall _ _ :: rest => rest
  | _ :: rest => after_call rest
  end.

(** A read of the segment-state field of the environment at [e]. *)
Definition is_segment_state_load (e : nat) (ev : event) : bool :=
  match ev with
  | ELoad (RField a SegmentStateOffset) _ => Nat.eqb a e
  | _ => false
  end.

(** The result of compiling a sample method. *)
Definition sample_compiled (is_static : bool) (shorty : string) : Compiled :=
  match Compile (fun _ => false) (sample_jc is_static shorty) with
  | Some c => c
  | None => mkCompiled (mkCompiledMethod kNone 0)
                       (mkFunction EmptyString (mkFunctionType VoidTy []) [] []) false
  end.

(** The trace of a run; a run that got stuck has none. *)
Definition trace_of (run : option cpu) : list event :=
  match run with Some c => trace c | None => [] end.

(** ** Well-formedness of a block *)

Definition callee_operands (f : callee) : list value :=
  match f with
  | Runtime _ => []
  | Indirect code_addr => [code_addr]
  end.

(** The operands of an instruction. *)
Definition operands (i : instr) : list value :=
  match i with
  | IAlloca _ => []
  | IStore v addr => [v; addr]
  | ILoad addr => [addr]
  | IGEP base idx => base :: idx
  | IPtrDisp base offset _ => [base; offset]
  | IBitCast v _ => [v]
  | IICmpEQ a b => [a; b]
  | ISelect c a b => [c; a; b]
  | ICall f args => callee_operands f ++ args
  | IRet v => [v]
  | IRetVoid => []
  end.

Definition is_terminator (i : instr) : bool :=
  match i with
  | IRet _ | IRetVoid => true
  | _ => false
  end.

(** An operand that the instruction at position [pos] of a function with
    [nargs] formal arguments may use: a constant, a formal argument, or the
    result of an earlier instruction. *)
Definition available (nargs pos : nat) (v : value) : bool :=
  match v with
  | VReg n => Nat.ltb n pos
  | VArg i => Nat.ltb i nargs
  | _ => true
  end.

(** Every operand of the block, which starts at position [pos], is available
    where it is used. *)
Fixpoint defined_before_use (nargs pos : nat) (bb : list instr) : bool :=
  match bb with
  | [] => true
  | i :: rest =>
    forallb (available nargs pos) (operands i)
    && defined_before_use nargs (S pos) rest
  end.

(** A sample compilation request: method 0 of the dex cache is resolved when
    [resolved_method] says so. *)
Definition sample_oat (flags : Z) (resolved_method : bool) (is_static : bool)
    (shorty : string) : OatCompilationUnit :=
  mkOatCompilationUnit flags 0
    (fun _ => if resolved_method then Some (mkMethod is_static "stub"%string) else None)
    (mkDexFile (fun _ => shorty)).

(** The events that mark the stages of a run: the push and the pop of the
    frame, the two stores of the thread state, the stores into the slots, the
    foreign call, the decode call and the return. *)
Definition is_stage_event (ev : event) : bool :=
  is_push ev || is_state_store kNative ev || is_state_store kRunnable ev
  || is_slot_store ev || is_native_call ev || is_decode ev || is_pop ev
  || is_return ev.

Lemma push_arg_types_eq (cs : list ascii) :
  forall acc, push_arg_types cs acc = option_map (app acc) (getJTypes cs).
Proof.
  induction cs as [|c cs IH]; intros acc; simpl.
  - now rewrite app_nil_r.
  - destruct (getJType c) as [t|]; [|reflexivity].
    rewrite IH. destruct (getJTypes cs) as [ts|]; simpl; [|reflexivity].
    now rewrite <- app_assoc.
Qed.

Lemma GetFunctionType_eq (jc : JniCompiler) (r : ascii) (dtys : list Ty) (rt : Ty)
    (is_static tgt : bool) :
  resolved jc r dtys -> getJType r = Some rt ->
  GetFunctionType jc (method_idx_ jc) is_static tgt =
  Some (mkFunctionType rt
          (JObjectTy :: (if negb is_static || tgt then [JObjectTy] else []) ++ dtys)).
Proof.
  intros (Hr & _ & Hd) Hrt. unfold GetFunctionType.
  unfold ret_shorty_of, declared_types, shorty_of in *.
  destruct (list_ascii_of_string _) as [|c tail]; [discriminate|].
  simpl in Hr, Hd. injection Hr as ->. rewrite Hrt.
  destruct (negb is_static || tgt); simpl;
    rewrite push_arg_types_eq, Hd; reflexivity.
Qed.

Lemma GetFunctionType_resolved (jc : JniCompiler) (is_static tgt : bool) (ft : FunctionType) :
  GetFunctionType jc (method_idx_ jc) is_static tgt = Some ft ->
  exists r dtys, resolved jc r dtys.
Proof.
  unfold GetFunctionType, resolved, ret_shorty_of, declared_types, shorty_of.
  destruct (list_ascii_of_string _) as [|c tail]; [discriminate|].
  destruct (getJType c) as [rt|] eqn:Hc; [|discriminate].
  intros H. exists c.
  destruct (getJTypes tail) as [dtys|] eqn:Hd.
  - exists dtys. simpl. rewrite Hc, Hd. repeat split; congruence.
  - exfalso. destruct (negb is_static || tgt); simpl in H;
      rewrite push_arg_types_eq, Hd in H; discriminate.
Qed.

Lemma count_object_args_eq (tys : list Ty) :
  forall i argno n,
    count_object_args i (make_args argno tys) n =
    (named_args i argno tys, n + count_refs tys).
Proof.
  induction tys as [|t tys IH]; intros i argno n; simpl.
  - now rewrite Nat.add_0_r.
  - rewrite IH. unfold count_refs. simpl.
    destruct (is_JObjectTy t); simpl; f_equal; lia.
Qed.

Lemma marshal_insns_length (tys : list Ty) :
  forall base argno k,
    List.length (marshal_insns base argno k tys) = 5 * count_refs tys.
Proof.
  induction tys as [|t tys IH]; intros base argno k; simpl; [reflexivity|].
  unfold count_refs in *. simpl. destruct (is_JObjectTy t); simpl.
  - rewrite IH. lia.
  - apply IH.
Qed.

Lemma store_arguments_eq (sf : value) (tys : list Ty) :
  forall i argno k args bb,
    sf = VReg 1 ->
    store_arguments sf (named_args i argno tys) k args bb =
    (k + count_refs tys,
     args ++ marshal_values (List.length bb) argno tys,
     bb ++ marshal_insns (List.length bb) argno k tys).
Proof.
  induction tys as [|t tys IH]; intros i argno k args bb ->; simpl.
  - now rewrite Nat.add_0_r, !app_nil_r.
  - unfold count_refs. simpl. destruct (is_JObjectTy t) eqn:Ht; simpl.
    + unfold CreateGEP, CreateStore, CreateICmpEQ, CreateBitCast, CreateSelect, Insert.
      rewrite IH by reflexivity.
      rewrite !length_app. simpl. rewrite <- !app_assoc. simpl.
      replace (List.length bb + 1 + 1) with (List.length bb + 2) by lia.
      replace (List.length bb + 2 + 1) with (List.length bb + 3) by lia.
      replace (List.length bb + 3 + 1) with (List.length bb + 4) by lia.
      replace (List.length bb + 4 + 1) with (List.length bb + 5) by lia.
      unfold count_refs. now rewrite (Nat.add_succ_r k).
    + rewrite IH by reflexivity. rewrite <- app_assoc. reflexivity.
Qed.

Lemma named_args_make_args (tys : list Ty) :
  forall i argno,
    map arg_no (named_args i argno tys) = map arg_no (make_args argno tys) /\
    map arg_type (named_args i argno tys) = tys.
Proof.
  induction tys as [|t tys IH]; intros i argno; simpl; [easy|].
  destruct (IH (S i) (S argno)) as [-> ->]. easy.
Qed.

(** [Compile] succeeds on every method whose shorty resolves, and the body it
    builds is [stub_body]. *)
Lemma Compile_eq (verify : Function -> bool) (jc : JniCompiler)
    (r : ascii) (rt : Ty) (dtys : list Ty) :
  resolved jc r dtys -> getJType r = Some rt ->
  let is_static := IsStatic (method_ jc) in
  let func :=
    mkFunction (LLVMLongName (method_ jc))
      (mkFunctionType rt (JObjectTy :: actual_types is_static dtys))
      (mkArgument 0 JObjectTy "method"
         :: named_args 0 1 (actual_types is_static dtys))
      (stub_body is_static r rt dtys) in
  Compile verify jc =
  Some (mkCompiled
          (mkCompiledMethod (GetInstructionSet (cunit_ jc)) (GetElfIndex (cunit_ jc)))
          func (verify func)).
Proof.
  intros Hres Hrt is_static func. unfold Compile, CreateFunction.
  rewrite (GetFunctionType_eq jc r dtys rt _ false Hres Hrt).
  rewrite (GetFunctionType_eq jc r dtys rt _ true Hres Hrt).
  destruct Hres as (Hr & _ & _). unfold ret_shorty_of, shorty_of in Hr.
  destruct (list_ascii_of_string _) as [|c tail]; [discriminate|].
  simpl in Hr. injection Hr as ->.
  fold is_static. rewrite orb_true_r, orb_false_r.
  subst func. unfold stub_body, actual_types, first_slot, first_pos, call_args.
  cbn [params_type fn_args make_args ret_type fn_body fn_name fn_type setName
       arg_no arg_type].
  destruct is_static; cbn [negb app]; rewrite count_object_args_eq;
    cbn [CreateCall CreateAlloca CreateStore CreateGEP CreateConstGEP2_32
         StoreToObjectOffset LoadFromObjectOffset CreatePtrDisp CreateLoad
         CreateBitCast Insert List.length app snd fst];
    rewrite store_arguments_eq by reflexivity;
    unfold epilogue, prologue, class_insns, target_type_of, CreateRet,
      CreateRetVoid, Insert;
    destruct (Ascii.eqb r "L"), (Ascii.eqb r "V");
    cbn [CreateCall Insert List.length app negb fst snd ret_type params_type];
    rewrite ?length_app, ?marshal_insns_length; cbn [List.length];
    rewrite <- ?app_assoc; cbn [app];
    repeat f_equal; lia.
Qed.

(** ** Running the body *)

#[local] Arguments Z.of_nat : simpl nomatch.
#[local] Arguments Z.to_nat : simpl nomatch.

Lemma exec_app (w : World) (fargs : list rv) (l1 l2 : list instr) :
  forall c,
    exec w fargs (l1 ++ l2) c =
    match exec w fargs l1 c with
    | Some c' => exec w fargs l2 c'
    | None => None
    end.
Proof.
  induction l1 as [|i l1 IH]; intros c; simpl; [reflexivity|].
  destruct (step w fargs i c); [apply IH | reflexivity].
Qed.

Lemma hupd_same h a o v : hupd h a o v a o = v.
Proof.
  unfold hupd, Offset_eqb. now rewrite !Nat.eqb_refl.
Qed.

Lemma prologue_exec (w : World) (m e : nat) (avals : list rv) (mem0 : memory)
    (n : nat) (tgt : FunctionType) :
  heap mem0 (current_thread w) JniEnvOffset = RObj e ->
  let t := current_thread w in
  exec w (RObj m :: avals) (prologue n tgt) (init_cpu mem0) =
  Some (mkCpu
          [ RObj t; RFrame; RVoid; RHeader 2; RVoid; RHeader 0; RVoid; RArtFrame;
            RVoid; RField t TopOfManagedStackOffset; RVoid;
            RField t JniEnvOffset; RObj e; RField t StateOffset; RVoid;
            RField m NativeMethodOffset; heap mem0 m NativeMethodOffset ]
          (mkMemory
             (hupd (hupd (heap mem0) t TopOfManagedStackOffset (RHeader 2))
                   t StateOffset (RState kNative))
             (Some (mkShadowFrame
                      (fupd (fupd zero_header 2 (RObj m)) 0 (RInt (Z.of_nat n)))
                      (repeat RNull n)))
             (RArtFrame :: frame_stack mem0))
          [ ERuntimeCall GetCurrentThread [];
            EStore RFrame (RZeroFrame n);
            EStore (RHeader 2) (RObj m);
            EStore (RHeader 0) (RInt (Z.of_nat n));
            ERuntimeCall PushShadowFrame [RArtFrame];
            EStore (RField t TopOfManagedStackOffset) (RHeader 2);
            ELoad (RField t JniEnvOffset) (RObj e);
            EStore (RField t StateOffset) (RState kNative);
            ELoad (RField m NativeMethodOffset) (heap mem0 m NativeMethodOffset) ]
          None).
Proof.
  intros He t. unfold prologue, init_cpu.
  cbn. rewrite repeat_length, Nat.eqb_refl.
  cbn. rewrite He. reflexivity.
Qed.

Lemma nth_error_app_base {A : Type} (R L : list A) (j : nat) :
  nth_error (R ++ L) (List.length R + j) = nth_error L j.
Proof.
  rewrite nth_error_app2 by lia. f_equal. lia.
Qed.

Lemma nth_error_app_len {A : Type} (R L : list A) (x : A) :
  nth_error (R ++ x :: L) (List.length R) = Some x.
Proof.
  rewrite nth_error_app2 by lia. now rewrite Nat.sub_diag.
Qed.

Lemma nth_error_app_keep {A : Type} (R L : list A) (i : nat) (x : A) :
  nth_error R i = Some x -> nth_error (R ++ L) i = Some x.
Proof.
  intros H. rewrite nth_error_app1; [exact H|].
  apply nth_error_Some. congruence.
Qed.

Lemma skipn_cons_nth {A : Type} (l : list A) :
  forall n x r, skipn n l = x :: r -> nth_error l n = Some x /\ skipn (S n) l = r.
Proof.
  induction l as [|a l IH]; intros [|n] x r H; simpl in *; try discriminate.
  - injection H as -> ->. easy.
  - apply IH in H. exact H.
Qed.

Lemma update_nth_app (pre : list rv) (x v : rv) (suf : list rv) :
  update_nth (pre ++ x :: suf) (List.length pre) v = Some (pre ++ v :: suf).
Proof.
  induction pre as [|p pre IH]; simpl; [reflexivity|]. now rewrite IH.
Qed.

Lemma rv_eqb_null (v : rv) : rv_eqb v RNull = is_null v.
Proof. destruct v; reflexivity. Qed.

Lemma eval_list_app_keep (fargs R L : list rv) (vs : list value) :
  forall xs, eval_list fargs R vs = Some xs -> eval_list fargs (R ++ L) vs = Some xs.
Proof.
  induction vs as [|v vs IH]; intros xs H; simpl in *; [exact H|].
  destruct (eval fargs R v) as [x|] eqn:Hx; [|discriminate].
  destruct (eval_list fargs R vs) as [ys|]; [|discriminate].
  rewrite (IH ys eq_refl).
  assert (Hk : eval fargs (R ++ L) v = Some x).
  { destruct v; simpl in *; try exact Hx. now apply nth_error_app_keep. }
  now rewrite Hk.
Qed.

(** One round of the argument loop for a reference-typed argument. *)
Lemma ref_block_exec (w : World) (fargs : list rv) (argno : nat) (v : rv)
    (R : list rv) hp hdr (pre : list rv) (x : rv) (suf fs : list rv)
    (T : list event) ret (rest : list instr) :
  nth_error R 1 = Some RFrame ->
  nth_error fargs argno = Some v ->
  let base := List.length R in
  let k := List.length pre in
  exec w fargs
       (IGEP (VReg 1) [VInt32 0; VInt32 1; VInt32 k]
        :: IStore (VArg argno) (VReg base)
        :: IICmpEQ (VArg argno) VJNull
        :: IBitCast (VReg base) JObjectTy
        :: ISelect (VReg (base + 2)) VJNull (VReg (base + 3))
        :: rest)
       (mkCpu R (mkMemory hp (Some (mkShadowFrame hdr (pre ++ x :: suf))) fs) T ret) =
  exec w fargs rest
       (mkCpu (R ++ [RSlot k; RVoid; RBool (is_null v); RSlot k;
                     if is_null v then RNull else RSlot k])
              (mkMemory hp (Some (mkShadowFrame hdr (pre ++ v :: suf))) fs)
              (T ++ [EStore (RSlot k) v]) ret).
Proof.
  intros HR Hv base k. subst base k.
  cbn -[nth_error]. rewrite HR. cbn -[nth_error]. rewrite Nat2Z.id, Hv.
  rewrite nth_error_app_len. cbn -[nth_error]. rewrite update_nth_app.
  cbn -[nth_error]. rewrite <- !app_assoc. cbn -[nth_error].
  rewrite nth_error_app_len. cbn -[nth_error].
  rewrite <- !app_assoc. cbn -[nth_error].
  rewrite !nth_error_app_base. cbn.
  rewrite <- !app_assoc, rv_eqb_null, ?app_nil_r. reflexivity.
Qed.

(** The argument loop: every reference-typed argument is written to the next
    slot, and the operand built for it evaluates to null or to that slot. *)
Lemma marshal_exec (w : World) (fargs : list rv) (tys : list Ty) :
  forall argno k avals R hp hdr pre suf fs T ret,
    nth_error R 1 = Some RFrame ->
    List.length pre = k ->
    count_refs tys <= List.length suf ->
    skipn argno fargs = avals ->
    List.length avals = List.length tys ->
    exists R',
      exec w fargs (marshal_insns (List.length R) argno k tys)
           (mkCpu R (mkMemory hp (Some (mkShadowFrame hdr (pre ++ suf))) fs) T ret) =
      Some (mkCpu (R ++ R')
              (mkMemory hp
                 (Some (mkShadowFrame hdr
                          (pre ++ ref_values tys avals
                               ++ skipn (count_refs tys) suf)))
                 fs)
              (T ++ slot_stores k (ref_values tys avals)) ret)
      /\ List.length R' = 5 * count_refs tys
      /\ eval_list fargs (R ++ R') (marshal_values (List.length R) argno tys) =
         Some (marshal_rt k tys avals).
Proof.
  induction tys as [|t tys IH];
    intros argno k avals R hp hdr pre suf fs T ret HR Hk Hc Hs Hl.
  - exists []. destruct avals; [|discriminate]. simpl. now rewrite !app_nil_r.
  - destruct avals as [|v vs]; [discriminate|].
    apply skipn_cons_nth in Hs. destruct Hs as [Hv Hs].
    injection Hl as Hl.
    unfold count_refs in Hc |- *.
    cbn [marshal_insns marshal_values marshal_rt ref_values filter].
    cbn [filter] in Hc.
    destruct (is_JObjectTy t) eqn:Ht; cbn [List.length skipn] in Hc |- *.
    + destruct suf as [|x suf]; [simpl in Hc; lia|]. simpl in Hc.
      subst k. cbn [app]. rewrite (ref_block_exec w fargs argno v R); auto.
      set (blk := [RSlot (List.length pre); RVoid; RBool (is_null v);
                   RSlot (List.length pre);
                   if is_null v then RNull else RSlot (List.length pre)]).
      destruct (IH (S argno) (S (List.length pre)) vs (R ++ blk) hp hdr
                   (pre ++ [v]) suf fs (T ++ [EStore (RSlot (List.length pre)) v]) ret)
        as (R' & He & HlR & Hev).
      { now apply nth_error_app_keep. }
      { rewrite length_app. simpl. lia. }
      { unfold count_refs. lia. }
      { exact Hs. }
      { exact Hl. }
      replace (List.length (R ++ blk)) with (List.length R + 5) in He, Hev
        by (rewrite length_app; reflexivity).
      rewrite <- !app_assoc in He. cbn [app] in He.
      exists (blk ++ R'). split; [|split].
      * rewrite He. rewrite <- ?app_assoc. reflexivity.
      * rewrite length_app, HlR. unfold count_refs. simpl. lia.
      * cbn [eval_list eval]. rewrite app_assoc, Hev.
        rewrite <- app_assoc, nth_error_app_base. reflexivity.
    + destruct (IH (S argno) k vs R hp hdr pre suf fs T ret)
        as (R' & He & HlR & Hev); auto.
      exists R'. split; [|split]; auto.
      cbn [eval_list eval]. now rewrite Hv, Hev.
Qed.

(** Lines 189-248: scope bookkeeping, the call, the state switch, decoding,
    unlinking, return. *)
Lemma epilogue_exec (w : World) (fargs R : list rv) hp sh (f0 : rv) (fs : list rv)
    (T : list event) (args : list value) (nargs : list rv) (r : ascii)
    (t e : nat) (code : rv) :
  nth_error R 0 = Some (RObj t) ->
  nth_error R 12 = Some (RObj e) ->
  nth_error R 16 = Some code ->
  eval_list fargs R args = Some nargs ->
  keeps_frame_stack w ->
  let m_n := mkMemory (hupd hp e LocalRefCookieOffset (hp e SegmentStateOffset))
                      sh (f0 :: fs) in
  let raw := fst (native_code w code nargs m_n) in
  let m_r := snd (native_code w code nargs m_n) in
  let hr := hupd (heap m_r) t StateOffset (RState kRunnable) in
  let retv :=
    if Ascii.eqb r "L"
    then decode_jobject w (mkMemory hr (shadow m_r) (frame_stack m_r)) (RObj t) raw
    else raw in
  let result := if Ascii.eqb r "V" then None else Some retv in
  exists R',
    exec w fargs (epilogue (List.length R) args r)
         (mkCpu R (mkMemory hp sh (f0 :: fs)) T None) =
    Some (mkCpu (R ++ R')
            (mkMemory
               (hupd (hupd hr e SegmentStateOffset (heap m_r e LocalRefCookieOffset))
                     e LocalRefCookieOffset (hp e LocalRefCookieOffset))
               (shadow m_r) fs)
            (T ++ [ ELoad (RField e LocalRefCookieOffset) (hp e LocalRefCookieOffset);
                    ELoad (RField e SegmentStateOffset) (hp e SegmentStateOffset);
                    EStore (RField e LocalRefCookieOffset) (hp e SegmentStateOffset);
                    ENativeCall code nargs;
                    EStore (RField t StateOffset) (RState kRunnable) ]
               ++ (if Ascii.eqb r "L"
                   then [ERuntimeCall DecodeJObjectInThread [RObj t; raw]]
                   else [])
               ++ [ ELoad (RField e LocalRefCookieOffset)
                          (heap m_r e LocalRefCookieOffset);
                    EStore (RField e SegmentStateOffset)
                           (heap m_r e LocalRefCookieOffset);
                    EStore (RField e LocalRefCookieOffset)
                           (hp e LocalRefCookieOffset);
                    ERuntimeCall PopShadowFrame [];
                    EReturn result ])
            (Some result)).
Proof.
  intros H0 H12 H16 Hargs Hfs m_n raw m_r hr retv result.
  pose proof (Hfs code nargs m_n) as Hstack.
  subst result retv hr. subst raw m_r.
  destruct (native_code w code nargs m_n) as [raw m_r] eqn:Hn.
  cbn [fst snd] in *. subst m_n. cbn [frame_stack] in Hstack.
  unfold epilogue.
  destruct (Ascii.eqb r "L"), (Ascii.eqb r "V"); cbn [app negb].
  all: eexists.
  all: cbn -[nth_error hupd].
  all: repeat (rewrite <- ?app_assoc, <- ?Nat.add_assoc; cbn [app Nat.add];
               first [ rewrite nth_error_app_len
                     | rewrite nth_error_app_base
                     | rewrite (nth_error_app_keep _ _ _ _ H12)
                     | rewrite (nth_error_app_keep _ _ _ _ H0)
                     | rewrite (nth_error_app_keep _ _ _ _ H16)
                     | rewrite (eval_list_app_keep _ _ _ _ _ Hargs)
                     | rewrite H12 | rewrite H0 | rewrite H16
                     | rewrite Hn | rewrite Hstack ];
               try simpl (nth_error (_ :: _) _);
               cbn -[nth_error hupd]).
  all: rewrite <- ?app_assoc; cbn [app]; reflexivity.
Qed.

Lemma skipn_repeat {A : Type} (x : A) (n : nat) : skipn n (repeat x n) = [].
Proof.
  rewrite <- (repeat_length x n) at 1. apply skipn_all.
Qed.

Lemma ref_values_length (tys : list Ty) :
  forall vals, List.length vals = List.length tys ->
               List.length (ref_values tys vals) = count_refs tys.
Proof.
  unfold count_refs.
  induction tys as [|t tys IH]; intros [|v vs] H; simpl in *; try discriminate;
    [reflexivity|].
  injection H as H. destruct (is_JObjectTy t); simpl; now rewrite IH.
Qed.

(** The whole run of [stub_body]. *)
Lemma stub_body_exec (w : World) (is_static : bool) (r : ascii) (rt : Ty)
    (dtys : list Ty) (m e : nat) (avals : list rv) (mem0 : memory) :
  let t := current_thread w in
  let atys := actual_types is_static dtys in
  List.length avals = List.length atys ->
  heap mem0 t JniEnvOffset = RObj e ->
  keeps_frame_stack w ->
  let code := heap mem0 m NativeMethodOffset in
  let nargs := native_args is_static e atys avals in
  let m_n := memory_at_call t m e is_static atys avals mem0 in
  let raw := fst (native_code w code nargs m_n) in
  let m_r := snd (native_code w code nargs m_n) in
  let saved := heap mem0 e LocalRefCookieOffset in
  exists R,
    exec w (RObj m :: avals) (stub_body is_static r rt dtys) (init_cpu mem0) =
    Some (mkCpu R
            (memory_at_return t e m_r saved (frame_stack mem0))
            (trace_before_call t m e is_static atys avals mem0
               ++ [ENativeCall code nargs]
               ++ trace_after_call w e r raw m_r saved)
            (Some (final_value w r raw m_r))).
Proof.
  intros t atys Hlen He Hfs code nargs m_n raw m_r saved.
  unfold stub_body. fold atys.
  rewrite exec_app, (prologue_exec w m e avals mem0 _ _ He). fold t.
  rewrite exec_app.
  destruct is_static.
  - cbn [first_slot first_pos]. unfold class_insns.
    cbn -[hupd marshal_insns epilogue call_args count_refs Nat.mul].
    rewrite exec_app.
    match goal with
    | |- context [exec _ _ (marshal_insns _ _ _ _)
                       (mkCpu ?R (mkMemory ?hp (Some (mkShadowFrame ?hdr (?x :: ?suf))) ?fs)
                              ?T ?ret)] =>
      destruct (marshal_exec w (RObj m :: avals) dtys 1 1 avals R hp hdr [x] suf fs T ret)
        as (R' & Hm & HlR & Hev);
        [ reflexivity | reflexivity | now rewrite repeat_length | reflexivity
        | exact Hlen | ]
    end.
    cbn [List.length app] in Hm, Hev. rewrite Hm.
    rewrite skipn_repeat, app_nil_r.
    match goal with
    | |- context [exec _ _ (epilogue ?b _ _)
                       (mkCpu ?R (mkMemory ?hp ?sh (?f0 :: ?fs)) ?T None)] =>
      replace b with (List.length R) by (cbn [List.length]; rewrite HlR; reflexivity);
      destruct (epilogue_exec w (RObj m :: avals) R hp sh f0 fs T
                              (call_args true dtys) nargs r t e code)
        as (R'' & Hepi);
        [ reflexivity | reflexivity | reflexivity
        | cbn [call_args eval_list eval first_pos app];
          simpl (nth_error (_ :: _) _); rewrite Hev; reflexivity
        | exact Hfs | ]
    end.
    rewrite Hepi. clear Hm Hepi Hev. eexists.
    unfold trace_before_call, trace_after_call, stored_refs.
    cbn [app slot_stores]. rewrite <- !app_assoc. cbn [app].
    reflexivity.
  - cbn [first_slot first_pos exec Nat.add]. rewrite exec_app.
    match goal with
    | |- context [exec _ _ (marshal_insns _ _ _ _)
                       (mkCpu ?R (mkMemory ?hp (Some (mkShadowFrame ?hdr ?suf)) ?fs)
                              ?T ?ret)] =>
      destruct (marshal_exec w (RObj m :: avals) atys 1 0 avals R hp hdr [] suf fs T ret)
        as (R' & Hm & HlR & Hev);
        [ reflexivity | reflexivity | now rewrite repeat_length | reflexivity
        | exact Hlen | ]
    end.
    cbn [List.length app] in Hm, Hev. rewrite Hm.
    rewrite skipn_repeat, app_nil_r.
    match goal with
    | |- context [exec _ _ (epilogue ?b _ _)
                       (mkCpu ?R (mkMemory ?hp ?sh (?f0 :: ?fs)) ?T None)] =>
      replace b with (List.length R) by (cbn [List.length]; rewrite HlR; reflexivity);
      destruct (epilogue_exec w (RObj m :: avals) R hp sh f0 fs T
                              (call_args false atys) nargs r t e code)
        as (R'' & Hepi);
        [ reflexivity | reflexivity | reflexivity
        | cbn [call_args eval_list eval first_pos app];
          simpl (nth_error (_ :: _) _); rewrite Hev; reflexivity
        | exact Hfs | ]
    end.
    rewrite Hepi. clear Hm Hepi Hev. eexists.
    unfold trace_before_call, trace_after_call, stored_refs.
    cbn [app slot_stores]. rewrite <- !app_assoc. cbn [app].
    reflexivity.
Qed.
(** ** From [Compile] to the run *)

Lemma Compile_inv (verify : Function -> bool) (jc : JniCompiler) (cm : Compiled) :
  Compile verify jc = Some cm ->
  exists r rt dtys,
    resolved jc r dtys /\ getJType r = Some rt /\
    func_ cm =
    mkFunction (LLVMLongName (method_ jc))
      (mkFunctionType rt (JObjectTy :: actual_types (IsStatic (method_ jc)) dtys))
      (mkArgument 0 JObjectTy "method"
         :: named_args 0 1 (actual_types (IsStatic (method_ jc)) dtys))
      (stub_body (IsStatic (method_ jc)) r rt dtys) /\
    compiled_method cm =
    mkCompiledMethod (GetInstructionSet (cunit_ jc)) (GetElfIndex (cunit_ jc)) /\
    verifier_message cm = verify (func_ cm).
Proof.
  intros H.
  assert (Hres : exists r dtys, resolved jc r dtys).
  { unfold Compile, CreateFunction in H.
    destruct (GetFunctionType jc (method_idx_ jc) (IsStatic (method_ jc)) false)
      as [ft|] eqn:Hft; [|discriminate].
    eapply GetFunctionType_resolved; eassumption. }
  destruct Hres as (r & dtys & Hres).
  destruct (getJType r) as [rt|] eqn:Hrt; [|now destruct Hres as (_ & ? & _)].
  exists r, rt, dtys. rewrite (Compile_eq verify jc r rt dtys Hres Hrt) in H.
  injection H as <-. cbn [func_ compiled_method verifier_message]. auto.
Qed.

Lemma named_args_length (tys : list Ty) :
  forall i argno, List.length (named_args i argno tys) = List.length tys.
Proof.
  induction tys as [|t tys IH]; intros i argno; simpl; [reflexivity|].
  now rewrite IH.
Qed.

(** Every call of a compiled stub runs to its return, and does exactly what
    [expected_trace] lists. *)
Lemma run_stub_spec (verify : Function -> bool) (jc : JniCompiler) (cm : Compiled)
    (w : World) (fargs : list rv) (mem0 : memory) (m e : nat) :
  Compile verify jc = Some cm ->
  well_called w (func_ cm) fargs mem0 m e ->
  exists r dtys avals R,
    resolved jc r dtys /\
    fargs = RObj m :: avals /\
    List.length avals = List.length (actual_types (IsStatic (method_ jc)) dtys) /\
    let is_static := IsStatic (method_ jc) in
    let fc := foreign_call w is_static dtys m e avals mem0 in
    run_stub w (func_ cm) fargs mem0 =
    Some (mkCpu R
            (memory_at_return (current_thread w) e (snd fc)
                              (heap mem0 e LocalRefCookieOffset) (frame_stack mem0))
            (expected_trace w is_static r dtys m e avals mem0)
            (Some (final_value w r (fst fc) (snd fc)))).
Proof.
  intros HC (Hhd & Hlen & He & Hfs).
  destruct (Compile_inv verify jc cm HC) as (r & rt & dtys & Hres & Hrt & Hf & _ & _).
  destruct fargs as [|a avals]; [discriminate|]. injection Hhd as ->.
  rewrite Hf in Hlen. cbn [fn_args List.length] in Hlen.
  rewrite named_args_length in Hlen. injection Hlen as Hlen.
  destruct (stub_body_exec w (IsStatic (method_ jc)) r rt dtys m e avals mem0
                           Hlen He Hfs) as (R & HR).
  exists r, dtys, avals, R.
  split; [exact Hres|]. split; [reflexivity|]. split; [exact Hlen|].
  cbv zeta. unfold run_stub. rewrite Hf. cbn [fn_body]. exact HR.
Qed.
(** ** Order of events *)

Lemma occurs_before_split (p q : event -> bool) (l1 l2 : list event) :
  forallb (fun x => negb (q x)) l1 = true ->
  forallb (fun x => negb (p x)) l2 = true ->
  occurs_before p q (l1 ++ l2).
Proof.
  intros H1 H2 i j a b Hi Hj Hp Hq.
  rewrite forallb_forall in H1, H2.
  destruct (Nat.lt_ge_cases j (List.length l1)) as [Hlt|Hge].
  - rewrite nth_error_app1 in Hj by exact Hlt.
    apply nth_error_In, H1 in Hj. rewrite Hq in Hj. discriminate.
  - destruct (Nat.lt_ge_cases i (List.length l1)) as [Hlt'|Hge']; [lia|].
    rewrite nth_error_app2 in Hi by exact Hge'.
    apply nth_error_In, H2 in Hi. rewrite Hp in Hi. discriminate.
Qed.

Lemma forallb_slot_stores (p : event -> bool) (vs : list rv) :
  (forall k v, p (EStore (RSlot k) v) = true) ->
  forall k, forallb p (slot_stores k vs) = true.
Proof.
  intros Hp. induction vs as [|v vs IH]; intros k; simpl; [reflexivity|].
  now rewrite Hp, IH.
Qed.

Lemma existsb_slot_stores (p : event -> bool) (vs : list rv) :
  (forall k v, p (EStore (RSlot k) v) = false) ->
  forall k, existsb p (slot_stores k vs) = false.
Proof.
  intros Hp. induction vs as [|v vs IH]; intros k; simpl; [reflexivity|].
  now rewrite Hp, IH.
Qed.



Lemma trace_before_call_forallb (p : event -> bool) (t m e : nat)
    (is_static : bool) (atys : list Ty) (avals : list rv) (mem0 : memory) :
  (forall ev, prologue_event ev = true -> p ev = true) ->
  forallb p (trace_before_call t m e is_static atys avals mem0) = true.
Proof.
  intros Hp. unfold trace_before_call.
  rewrite !forallb_app. cbn [forallb].
  rewrite forallb_slot_stores by (intros; now apply Hp).
  rewrite !Hp by reflexivity.
  destruct is_static; cbn [forallb]; rewrite ?Hp by reflexivity; reflexivity.
Qed.


Lemma ret_shorty_resolved (jc : JniCompiler) (r r' : ascii) (dtys : list Ty) :
  resolved jc r dtys -> ret_shorty_of jc = Some r' -> r = r'.
Proof. intros (H & _) H'. congruence. Qed.

Lemma expected_trace_slot_store (w : World) (is_static : bool) (r : ascii)
    (dtys : list Ty) (m e : nat) (avals : list rv) (mem0 : memory) :
  List.length avals = List.length (actual_types is_static dtys) ->
  occurs is_slot_store (expected_trace w is_static r dtys m e avals mem0).
Proof.
  intros Hlen. unfold occurs, expected_trace, trace_before_call, stored_refs.
  rewrite !existsb_app. destruct is_static.
  - cbn. now rewrite ?orb_true_r.
  - destruct avals as [|v vs]; [discriminate|]. cbn. now rewrite ?orb_true_r.
Qed.

Lemma expected_trace_native_store (w : World) (is_static : bool) (r : ascii)
    (dtys : list Ty) (m e : nat) (avals : list rv) (mem0 : memory) :
  occurs (is_state_store kNative) (expected_trace w is_static r dtys m e avals mem0).
Proof.
  unfold occurs, expected_trace, trace_before_call. rewrite !existsb_app.
  cbn. now rewrite ?orb_true_r.
Qed.

Ltac by_event_kind :=
  let ev := fresh "ev" in
  let H := fresh "H" in
  intros ev H; destruct ev as [? ?|? ?|[] ?|? ?|?];
  try discriminate H; reflexivity.

Lemma expected_trace_stages (w : World) (is_static : bool) (r : ascii)
    (dtys : list Ty) (m e : nat) (avals : list rv) (mem0 : memory) :
  expected_trace w is_static r dtys m e avals mem0 =
  List.concat (stages w is_static r dtys m e avals mem0).
Proof.
  unfold expected_trace, stages, trace_before_call, trace_after_call.
  cbn [List.concat]. rewrite <- !app_assoc. rewrite app_nil_r. reflexivity.
Qed.

Lemma occurs_before_segments (p q : event -> bool) (segs : list (list event))
    (k : nat) :
  forallb (forallb (fun x => negb (q x))) (firstn k segs) = true ->
  forallb (forallb (fun x => negb (p x))) (skipn k segs) = true ->
  occurs_before p q (List.concat segs).
Proof.
  intros H1 H2. rewrite <- (firstn_skipn k segs), List.concat_app.
  apply occurs_before_split.
  - clear H2. induction (firstn k segs) as [|s l IH]; simpl in *; [reflexivity|].
    apply andb_prop in H1. destruct H1 as [Hs Hl].
    now rewrite forallb_app, Hs, IH.
  - clear H1. induction (skipn k segs) as [|s l IH]; simpl in *; [reflexivity|].
    apply andb_prop in H2. destruct H2 as [Hs Hl].
    now rewrite forallb_app, Hs, IH.
Qed.

Ltac stage_forallb :=
  unfold stages; cbn [firstn skipn forallb]; unfold stored_refs;
  rewrite ?forallb_app, ?forallb_slot_stores by (intros; reflexivity);
  repeat match goal with |- context [if ?b then _ else _] => destruct b end;
  reflexivity.

(** Stage [k] and the stages after it hold every [q] event, the stages before
    it every [p] event. *)
Ltac stage_order k :=
  rewrite expected_trace_stages;
  apply (occurs_before_segments _ _ _ k); stage_forallb.

Lemma order_test (w : World) (is_static : bool) (r : ascii)
    (dtys : list Ty) (m e : nat) (avals : list rv) (mem0 : memory) :
  let tr := expected_trace w is_static r dtys m e avals mem0 in
  occurs_before is_push (is_state_store kNative) tr /\
  occurs_before (is_state_store kNative) is_slot_store tr /\
  occurs_before is_slot_store is_native_call tr /\
  occurs_before is_native_call (is_state_store kRunnable) tr /\
  occurs_before (is_state_store kRunnable) is_decode tr /\
  occurs_before is_decode is_pop tr /\
  occurs_before is_pop is_return tr.
Proof.
  cbv zeta.
  split; [stage_order 1|]. split; [stage_order 2|]. split; [stage_order 3|].
  split; [stage_order 5|]. split; [stage_order 6|]. split; [stage_order 7|].
  stage_order 9.
Qed.
(** ** Marshalled arguments, slot by slot *)

Lemma marshal_rt_nth (tys : list Ty) :
  forall vals k j t v,
    nth_error tys j = Some t -> nth_error vals j = Some v ->
    nth_error (marshal_rt k tys vals) j =
    Some (if is_JObjectTy t
          then (if is_null v then RNull else RSlot (k + count_refs (firstn j tys)))
          else v).
Proof.
  unfold count_refs.
  induction tys as [|t0 tys IH]; intros vals k j t v Ht Hv.
  - destruct j; discriminate.
  - destruct vals as [|v0 vals]; [destruct j; discriminate|].
    destruct j as [|j]; simpl in Ht, Hv.
    + injection Ht as ->. injection Hv as ->. simpl.
      destruct (is_JObjectTy t); simpl; [|reflexivity].
      now rewrite Nat.add_0_r.
    + simpl. destruct (is_JObjectTy t0); simpl.
      * rewrite (IH vals (S k) j t v Ht Hv).
        now rewrite Nat.add_succ_r.
      * apply (IH vals k j t v Ht Hv).
Qed.

Lemma marshal_rt_length (tys : list Ty) :
  forall vals k, List.length vals = List.length tys ->
                 List.length (marshal_rt k tys vals) = List.length tys.
Proof.
  induction tys as [|t tys IH]; intros [|v vs] k H; simpl in *; try discriminate;
    [reflexivity|].
  injection H as H. destruct (is_JObjectTy t); simpl; now rewrite IH.
Qed.

Lemma slot_stores_In (tys : list Ty) :
  forall vals k j t v,
    nth_error tys j = Some t -> is_JObjectTy t = true ->
    nth_error vals j = Some v ->
    In (EStore (RSlot (k + count_refs (firstn j tys))) v)
       (slot_stores k (ref_values tys vals)).
Proof.
  unfold count_refs.
  induction tys as [|t0 tys IH]; intros vals k j t v Ht Hr Hv.
  - destruct j; discriminate.
  - destruct vals as [|v0 vals]; [destruct j; discriminate|].
    destruct j as [|j]; simpl in Ht, Hv.
    + injection Ht as ->. injection Hv as ->. simpl. rewrite Hr. simpl.
      left. now rewrite Nat.add_0_r.
    + simpl. destruct (is_JObjectTy t0); simpl.
      * right. rewrite Nat.add_succ_r. apply (IH vals (S k) j t v Ht Hr Hv).
      * apply (IH vals k j t v Ht Hr Hv).
Qed.

Lemma filter_slot_stores (vs : list rv) :
  forall k, filter is_slot_store (slot_stores k vs) = slot_stores k vs.
Proof.
  induction vs as [|v vs IH]; intros k; simpl; [reflexivity|]. now rewrite IH.
Qed.

Lemma expected_trace_slot_stores (w : World) (is_static : bool) (r : ascii)
    (dtys : list Ty) (m e : nat) (avals : list rv) (mem0 : memory) :
  filter is_slot_store (expected_trace w is_static r dtys m e avals mem0) =
  slot_stores 0 (stored_refs is_static (heap mem0 m DeclaringClassOffset)
                             (actual_types is_static dtys) avals).
Proof.
  unfold expected_trace, trace_before_call, trace_after_call.
  rewrite !filter_app, filter_slot_stores.
  destruct is_static, (Ascii.eqb r "L"); cbn; now rewrite !app_nil_r.
Qed.

Lemma expected_trace_native_call (w : World) (is_static : bool) (r : ascii)
    (dtys : list Ty) (m e : nat) (avals : list rv) (mem0 : memory) :
  In (ENativeCall (heap mem0 m NativeMethodOffset)
                  (native_args is_static e (actual_types is_static dtys) avals))
     (expected_trace w is_static r dtys m e avals mem0).
Proof.
  unfold expected_trace. rewrite !in_app_iff. right. left. now left.
Qed.

Lemma expected_trace_slot_store_In (w : World) (is_static : bool) (r : ascii)
    (dtys : list Ty) (m e : nat) (avals : list rv) (mem0 : memory) (ev : event) :
  In ev (slot_stores 0 (stored_refs is_static (heap mem0 m DeclaringClassOffset)
                                    (actual_types is_static dtys) avals)) ->
  In ev (expected_trace w is_static r dtys m e avals mem0).
Proof.
  rewrite <- (expected_trace_slot_stores w is_static r dtys m e avals mem0).
  intros H. apply filter_In in H. tauto.
Qed.

Lemma after_call_app (l1 l2 : list event) :
  forallb (fun x => negb (is_native_call x)) l1 = true ->
  after_call (l1 ++ l2) = after_call l2.
Proof.
  induction l1 as [|a l1 IH]; simpl; [reflexivity|].
  intros H. apply andb_prop in H. destruct H as [Ha Hl].
  destruct a; try discriminate Ha; now apply IH.
Qed.

Lemma expected_trace_after_call (w : World) (is_static : bool) (r : ascii)
    (dtys : list Ty) (m e : nat) (avals : list rv) (mem0 : memory) :
  let fc := foreign_call w is_static dtys m e avals mem0 in
  after_call (expected_trace w is_static r dtys m e avals mem0) =
  trace_after_call w e r (fst fc) (snd fc) (heap mem0 e LocalRefCookieOffset).
Proof.
  cbv zeta. unfold expected_trace. rewrite after_call_app; [reflexivity|].
  apply trace_before_call_forallb. by_event_kind.
Qed.

(** No call is inserted while the arguments are bound. *)
Lemma marshal_insns_no_call (tys : list Ty) :
  forall base argno k f args, ~ In (ICall f args) (marshal_insns base argno k tys).
Proof.
  induction tys as [|t tys IH]; intros base argno k f args; simpl; [tauto|].
  destruct (is_JObjectTy t); [|apply IH].
  simpl. intros [H|[H|[H|[H|[H|H]]]]]; try discriminate H.
  now apply IH in H.
Qed.

Lemma stub_body_decode (is_static : bool) (r : ascii) (rt : Ty) (dtys : list Ty) :
  (exists args, In (ICall (Runtime DecodeJObjectInThread) args)
                   (stub_body is_static r rt dtys))
  <-> r = "L".
Proof.
  unfold stub_body, epilogue. rewrite <- Ascii.eqb_eq. split.
  - intros (args & H). rewrite !in_app_iff in H.
    destruct H as [H|[H|[H|[H|[H|H]]]]].
    + simpl in H. repeat (destruct H as [H|H]; [discriminate H|]). destruct H.
    + destruct is_static; simpl in H; [|destruct H].
      repeat (destruct H as [H|H]; [discriminate H|]). destruct H.
    + now apply marshal_insns_no_call in H.
    + simpl in H. repeat (destruct H as [H|H]; [discriminate H|]). destruct H.
    + destruct (Ascii.eqb r "L"); [reflexivity|destruct H].
    + simpl in H.
      repeat (destruct H as [H|H];
              [destruct (negb (Ascii.eqb r "V")); discriminate H|]).
      destruct H.
  - intros H. rewrite H. eexists. rewrite !in_app_iff.
    do 4 right. left. left. reflexivity.
Qed.

Lemma filter_stage_slot_stores (vs : list rv) :
  forall k, filter is_stage_event (slot_stores k vs) = slot_stores k vs.
Proof.
  induction vs as [|v vs IH]; intros k; simpl; [reflexivity|]. now rewrite IH.
Qed.

(** The stage events of a run, in order. *)
Lemma expected_trace_stage_events (w : World) (is_static : bool) (r : ascii)
    (dtys : list Ty) (m e : nat) (avals : list rv) (mem0 : memory) :
  let t := current_thread w in
  let atys := actual_types is_static dtys in
  let fc := foreign_call w is_static dtys m e avals mem0 in
  filter is_stage_event (expected_trace w is_static r dtys m e avals mem0) =
  [ ERuntimeCall PushShadowFrame [RArtFrame];
    EStore (RField t StateOffset) (RState kNative) ]
  ++ slot_stores 0 (stored_refs is_static (heap mem0 m DeclaringClassOffset) atys avals)
  ++ [ ENativeCall (heap mem0 m NativeMethodOffset) (native_args is_static e atys avals);
       EStore (RField t StateOffset) (RState kRunnable) ]
  ++ (if Ascii.eqb r "L"
      then [ERuntimeCall DecodeJObjectInThread [RObj t; fst fc]]
      else [])
  ++ [ ERuntimeCall PopShadowFrame [];
       EReturn (final_value w r (fst fc) (snd fc)) ].
Proof.
  cbv zeta. unfold expected_trace, trace_before_call, trace_after_call.
  rewrite !filter_app, filter_stage_slot_stores.
  destruct is_static, (Ascii.eqb r "L"); cbn; now rewrite ?app_nil_r.
Qed.
(** ** Properties of the generated stub *)

(** *** C1 witness *)


(** *** C2 *)

(** C2, as stated, fails for an instance method: the stub of the instance
    method with shorty "V" (no declared arguments) allocates a frame of one
    slot, not of zero. *)
Lemma C2_counterexample :
  exists cm,
    Compile (fun _ => false) (sample_jc false "V") = Some cm /\
    declared_types (sample_jc false "V") = Some [] /\
    IsStatic (method_ (sample_jc false "V")) = false /\
    nth_error (fn_body (func_ cm)) 1 = Some (IAlloca (ShadowFrameTy 1)) /\
    1 <> count_refs [] + (if false then 1 else 0).
Proof.
  eexists. split; [vm_compute; reflexivity|].
  split; [reflexivity|]. split; [reflexivity|]. split; [reflexivity|].
  discriminate.
Qed.

(** C2 (amended): the frame the stub allocates has one slot per
    reference-typed declared argument plus one more slot for every method; the
    frame is zero-initialised, and then the method pointer and this slot count
    are stored into its header fields 2 and 0.  The extra slot is slot 0: it
    holds the declaring class of a static method and the receiver of an
    instance method, and the slots after it hold the reference-typed declared
    arguments, so that the foreign function finds a frame of exactly that
    many filled slots. *)
Theorem C2_sirt_size (verify : Function -> bool) (jc : JniCompiler) (cm : Compiled)
    (w : World) (fargs : list rv) (mem0 : memory) (m e : nat) (dtys : list Ty) :
  Compile verify jc = Some cm ->
  well_called w (func_ cm) fargs mem0 m e ->
  declared_types jc = Some dtys ->
  let is_static := IsStatic (method_ jc) in
  let sirt_size := count_refs dtys + 1 in
  firstn 7 (fn_body (func_ cm)) =
  [ ICall (Runtime GetCurrentThread) [];
    IAlloca (ShadowFrameTy sirt_size);
    IStore (VZeroInit (ShadowFrameTy sirt_size)) (VReg 1);
    IGEP (VReg 1) [VInt32 0; VInt32 0; VInt32 2];
    IStore (VArg 0) (VReg 3);
    IGEP (VReg 1) [VInt32 0; VInt32 0; VInt32 0];
    IStore (VInt32 sirt_size) (VReg 5) ] /\
  exists c x0 dvals code nargs m_n sf,
    run_stub w (func_ cm) fargs mem0 = Some c /\
    fargs = RObj m :: (if is_static then [] else [x0]) ++ dvals /\
    List.length dvals = List.length dtys /\
    (is_static = true -> x0 = heap mem0 m DeclaringClassOffset) /\
    firstn 4 (trace c) =
    [ ERuntimeCall GetCurrentThread [];
      EStore RFrame (RZeroFrame sirt_size);
      EStore (RHeader 2) (RObj m);
      EStore (RHeader 0) (RInt (Z.of_nat sirt_size)) ] /\
    filter is_slot_store (trace c) = slot_stores 0 (x0 :: ref_values dtys dvals) /\
    In (ENativeCall code nargs) (trace c) /\
    mem c = memory_at_return (current_thread w) e
                             (snd (native_code w code nargs m_n))
                             (heap mem0 e LocalRefCookieOffset) (frame_stack mem0) /\
    shadow m_n = Some sf /\
    sf_slots sf = x0 :: ref_values dtys dvals /\
    List.length (sf_slots sf) = sirt_size /\
    sf_header sf 0 = RInt (Z.of_nat sirt_size) /\
    sf_header sf 2 = RObj m.
Proof.
  intros HC Hw Hd is_static sirt_size.
  destruct (Compile_inv verify jc cm HC) as (r1 & rt & dtys1 & Hres1 & Hrt & Hf & _).
  assert (dtys1 = dtys) as -> by (destruct Hres1 as (_ & _ & H); congruence).
  destruct (run_stub_spec verify jc cm w fargs mem0 m e HC Hw)
    as (r & dtys' & avals & R & Hres & -> & Hlen & Hrun).
  assert (dtys' = dtys) as -> by (destruct Hres as (_ & _ & H); congruence).
  cbv zeta in Hrun. fold is_static in Hrun, Hlen.
  assert (Hn : first_slot is_static + count_refs (actual_types is_static dtys)
               = sirt_size).
  { unfold sirt_size, actual_types, first_slot, count_refs.
    destruct is_static; simpl; lia. }
  split.
  { assert (Hbody : fn_body (func_ cm) = stub_body is_static r1 rt dtys)
      by (rewrite Hf; reflexivity).
    rewrite Hbody. unfold stub_body, prologue. cbn [app firstn].
    rewrite Hn. reflexivity. }
  pose proof (expected_trace_native_call w is_static r dtys m e avals mem0) as Hcall.
  pose proof (expected_trace_slot_stores w is_static r dtys m e avals mem0) as Hslots.
  assert (Hfirst : firstn 4 (expected_trace w is_static r dtys m e avals mem0) =
                   [ ERuntimeCall GetCurrentThread [];
                     EStore RFrame (RZeroFrame sirt_size);
                     EStore (RHeader 2) (RObj m);
                     EStore (RHeader 0) (RInt (Z.of_nat sirt_size)) ]).
  { unfold expected_trace, trace_before_call, sirt_size_of. rewrite Hn. reflexivity. }
  set (m_n := memory_at_call (current_thread w) m e is_static
                             (actual_types is_static dtys) avals mem0).
  assert (Hsf : shadow m_n =
                Some (mkShadowFrame
                        (fupd (fupd zero_header 2 (RObj m)) 0 (RInt (Z.of_nat sirt_size)))
                        (stored_refs is_static (heap mem0 m DeclaringClassOffset)
                                     (actual_types is_static dtys) avals))).
  { unfold m_n, memory_at_call, sirt_size_of. cbn [shadow]. now rewrite Hn. }
  assert (Hmem : memory_at_return (current_thread w) e
                   (snd (foreign_call w is_static dtys m e avals mem0))
                   (heap mem0 e LocalRefCookieOffset) (frame_stack mem0) =
                 memory_at_return (current_thread w) e
                   (snd (native_code w (heap mem0 m NativeMethodOffset)
                           (native_args is_static e (actual_types is_static dtys) avals)
                           m_n))
                   (heap mem0 e LocalRefCookieOffset) (frame_stack mem0))
    by reflexivity.
  clearbody m_n. rewrite Hmem in Hrun. clear Hmem.
  assert (Hsz : forall x0 dvals, List.length dvals = List.length dtys ->
                  List.length (x0 :: ref_values dtys dvals) = sirt_size).
  { intros x0 dvals Hl. cbn [List.length]. rewrite ref_values_length by exact Hl.
    unfold sirt_size. lia. }
  revert Hrun Hlen Hcall Hslots Hfirst Hsf.
  unfold stored_refs, actual_types.
  destruct is_static; cbn [app List.length]; intros Hrun Hlen Hcall Hslots Hfirst Hsf.
  - eexists. exists (heap mem0 m DeclaringClassOffset), avals. do 3 eexists.
    eexists.
    split; [exact Hrun|]. cbn [trace mem].
    split; [reflexivity|]. split; [exact Hlen|]. split; [reflexivity|].
    split; [exact Hfirst|]. split; [exact Hslots|]. split; [exact Hcall|].
    split; [reflexivity|]. split; [exact Hsf|]. cbn [sf_slots sf_header].
    split; [reflexivity|]. split; [now apply Hsz|]. split; reflexivity.
  - destruct avals as [|this dvals]; [discriminate|]. injection Hlen as Hlen.
    cbn [ref_values is_JObjectTy] in Hslots, Hsf.
    eexists. exists this, dvals. do 3 eexists. eexists.
    split; [exact Hrun|]. cbn [trace mem].
    split; [reflexivity|]. split; [exact Hlen|]. split; [discriminate|].
    split; [exact Hfirst|]. split; [exact Hslots|]. split; [exact Hcall|].
    split; [reflexivity|]. split; [exact Hsf|]. cbn [sf_slots sf_header].
    split; [reflexivity|]. split; [now apply Hsz|]. split; reflexivity.
Qed.

Lemma C2_witness :
  let is_static := IsStatic (method_ (sample_jc false "LLI")) in
  let sirt_size := count_refs [JObjectTy; Int32Ty] + 1 in
  firstn 7 (fn_body (func_ (sample_compiled false "LLI"))) =
  [ ICall (Runtime GetCurrentThread) [];
    IAlloca (ShadowFrameTy sirt_size);
    IStore (VZeroInit (ShadowFrameTy sirt_size)) (VReg 1);
    IGEP (VReg 1) [VInt32 0; VInt32 0; VInt32 2];
    IStore (VArg 0) (VReg 3);
    IGEP (VReg 1) [VInt32 0; VInt32 0; VInt32 0];
    IStore (VInt32 sirt_size) (VReg 5) ] /\
  exists c x0 dvals code nargs m_n sf,
    run_stub (sample_world 4) (func_ (sample_compiled false "LLI"))
             [RObj 3; RObj 10; RNull; RInt 5] (sample_memory 11 20 (RObj 50)) = Some c /\
    [RObj 3; RObj 10; RNull; RInt 5] =
    RObj 3 :: (if is_static then [] else [x0]) ++ dvals /\
    List.length dvals = List.length [JObjectTy; Int32Ty] /\
    (is_static = true ->
     x0 = heap (sample_memory 11 20 (RObj 50)) 3 DeclaringClassOffset) /\
    firstn 4 (trace c) =
    [ ERuntimeCall GetCurrentThread [];
      EStore RFrame (RZeroFrame sirt_size);
      EStore (RHeader 2) (RObj 3);
      EStore (RHeader 0) (RInt (Z.of_nat sirt_size)) ] /\
    filter is_slot_store (trace c) =
    slot_stores 0 (x0 :: ref_values [JObjectTy; Int32Ty] dvals) /\
    In (ENativeCall code nargs) (trace c) /\
    mem c = memory_at_return (current_thread (sample_world 4)) 2
              (snd (native_code (sample_world 4) code nargs m_n))
              (heap (sample_memory 11 20 (RObj 50)) 2 LocalRefCookieOffset)
              (frame_stack (sample_memory 11 20 (RObj 50))) /\
    shadow m_n = Some sf /\
    sf_slots sf = x0 :: ref_values [JObjectTy; Int32Ty] dvals /\
    List.length (sf_slots sf) = sirt_size /\
    sf_header sf 0 = RInt (Z.of_nat sirt_size) /\
    sf_header sf 2 = RObj 3.
Proof.
  apply (C2_sirt_size (fun _ => false) (sample_jc false "LLI")
           (sample_compiled false "LLI") (sample_world 4)
           [RObj 3; RObj 10; RNull; RInt 5] (sample_memory 11 20 (RObj 50)) 3 2
           [JObjectTy; Int32Ty]).
  - vm_compute; reflexivity.
  - split; [reflexivity|]. split; [vm_compute; reflexivity|]. split; [reflexivity|].
    intros f xs m. reflexivity.
  - reflexivity.
Defined.

(** *** C4 *)

(** C4: after the run of the stub the saved-cookie field of the environment
    holds the value it held before the call, and so does the segment-state
    field, whatever the foreign call did to the segment state. *)
Theorem C4_scope_round_trip (verify : Function -> bool) (jc : JniCompiler)
    (cm : Compiled) (w : World) (fargs : list rv) (mem0 : memory) (m e : nat) :
  Compile verify jc = Some cm ->
  well_called w (func_ cm) fargs mem0 m e ->
  keeps_cookie w e ->
  exists c,
    run_stub w (func_ cm) fargs mem0 = Some c /\
    heap (mem c) e LocalRefCookieOffset = heap mem0 e LocalRefCookieOffset /\
    heap (mem c) e SegmentStateOffset = heap mem0 e SegmentStateOffset.
Proof.
  intros HC Hw Hk.
  destruct (run_stub_spec verify jc cm w fargs mem0 m e HC Hw)
    as (r & dtys & avals & R & Hres & -> & Hlen & Hrun).
  cbv zeta in Hrun. eexists. split; [exact Hrun|].
  cbn [mem]. unfold memory_at_return. cbn [heap]. split.
  - apply hupd_same.
  - unfold foreign_call. rewrite Hk. unfold memory_at_call. cbn [heap].
    unfold hupd. cbn. now rewrite !Nat.eqb_refl.
Qed.

Lemma C4_witness :
  exists c,
    run_stub (sample_world 4) (func_ (sample_compiled false "LLI"))
             [RObj 3; RObj 10; RNull; RInt 5] (sample_memory 11 20 (RObj 50)) = Some c /\
    heap (mem c) 2 LocalRefCookieOffset =
    heap (sample_memory 11 20 (RObj 50)) 2 LocalRefCookieOffset /\
    heap (mem c) 2 SegmentStateOffset =
    heap (sample_memory 11 20 (RObj 50)) 2 SegmentStateOffset.
Proof.
  apply (C4_scope_round_trip (fun _ => false) (sample_jc false "LLI")
           (sample_compiled false "LLI") (sample_world 4)
           [RObj 3; RObj 10; RNull; RInt 5] (sample_memory 11 20 (RObj 50)) 3 2).
  - vm_compute; reflexivity.
  - split; [reflexivity|]. split; [vm_compute; reflexivity|]. split; [reflexivity|].
    intros f xs m. reflexivity.
  - intros f xs m. reflexivity.
Defined.

(** *** C5 *)

(** C5, as stated, fails: with a verifier that rejects every body, [Compile]
    still returns the artifact of the static method with shorty "V". *)
Lemma C5_counterexample :
  exists cm,
    Compile (fun _ => true) (sample_jc true "V") = Some cm /\
    verifier_message cm = true /\
    compiled_method cm = mkCompiledMethod kThumb2 7.
Proof.
  eexists. split; [vm_compute; reflexivity|]. split; reflexivity.
Qed.

(** C5 (amended): the verdict of the IR verifier is not consulted.  The
    verifier runs over the finished function and a rejection is reported by a
    printed message only; whatever it answers, [Compile] returns the same
    artifact for the same function. *)
Theorem C5_verifier_verdict_unused (verify verify' : Function -> bool)
    (jc : JniCompiler) (cm : Compiled) :
  Compile verify jc = Some cm ->
  exists cm',
    Compile verify' jc = Some cm' /\
    func_ cm' = func_ cm /\
    compiled_method cm' = compiled_method cm /\
    compiled_method cm' =
    mkCompiledMethod (GetInstructionSet (cunit_ jc)) (GetElfIndex (cunit_ jc)) /\
    verifier_message cm' = verify' (func_ cm').
Proof.
  intros HC.
  destruct (Compile_inv verify jc cm HC) as (r & rt & dtys & Hres & Hrt & Hf & Hm & _).
  rewrite (Compile_eq verify' jc r rt dtys Hres Hrt).
  eexists. split; [reflexivity|]. cbn [func_ compiled_method verifier_message].
  rewrite Hf, Hm. repeat split.
Qed.

Lemma C5_witness :
  exists cm',
    Compile (fun _ => true) (sample_jc true "V") = Some cm' /\
    func_ cm' = func_ (sample_compiled true "V") /\
    compiled_method cm' = compiled_method (sample_compiled true "V") /\
    compiled_method cm' =
    mkCompiledMethod (GetInstructionSet (cunit_ (sample_jc true "V")))
                     (GetElfIndex (cunit_ (sample_jc true "V"))) /\
    verifier_message cm' = (fun _ => true) (func_ cm').
Proof.
  apply (C5_verifier_verdict_unused (fun _ => false) (fun _ => true)
           (sample_jc true "V") (sample_compiled true "V")).
  vm_compute; reflexivity.
Defined.

(** *** C3 *)

(** C3: for every reference-typed declared argument the stub stores the
    argument value into the next unused slot of the shadow frame (slot 0 holds
    the class or the receiver, the reference-typed declared arguments before
    this one hold the slots after it), and the foreign function receives, in
    the argument's place, a literal null when the argument is null and the
    address of that slot otherwise. *)
Theorem C3_reference_argument (verify : Function -> bool) (jc : JniCompiler)
    (cm : Compiled) (w : World) (fargs : list rv) (mem0 : memory) (m e : nat)
    (dtys : list Ty) (j : nat) (v : rv) :
  Compile verify jc = Some cm ->
  well_called w (func_ cm) fargs mem0 m e ->
  declared_types jc = Some dtys ->
  nth_error dtys j = Some JObjectTy ->
  nth_error fargs (declared_pos (IsStatic (method_ jc)) j) = Some v ->
  let slot := 1 + count_refs (firstn j dtys) in
  exists c code nargs,
    run_stub w (func_ cm) fargs mem0 = Some c /\
    In (EStore (RSlot slot) v) (trace c) /\
    In (ENativeCall code nargs) (trace c) /\
    (v = RNull -> nth_error nargs (2 + j) = Some RNull) /\
    (v <> RNull -> nth_error nargs (2 + j) = Some (RSlot slot)).
Proof.
  intros HC Hw Hd Hj Hv slot.
  destruct (run_stub_spec verify jc cm w fargs mem0 m e HC Hw)
    as (r & dtys' & avals & R & Hres & -> & Hlen & Hrun).
  assert (dtys' = dtys) as -> by (destruct Hres as (_ & _ & H); congruence).
  cbv zeta in Hrun. eexists.
  exists (heap mem0 m NativeMethodOffset).
  exists (native_args (IsStatic (method_ jc)) e
                      (actual_types (IsStatic (method_ jc)) dtys) avals).
  split; [exact Hrun|]. cbn [trace].
  assert (Hnull : forall x, (if is_null v then RNull else x) =
                            match v with RNull => RNull | _ => x end)
    by (intros x; destruct v; reflexivity).
  revert Hv Hlen. unfold declared_pos, actual_types.
  destruct (IsStatic (method_ jc)) eqn:Hst; cbn [app Nat.add nth_error]; intros Hv Hlen.
  - split.
    { apply expected_trace_slot_store_In. unfold stored_refs, actual_types.
      cbn [app slot_stores]. right.
      apply (slot_stores_In dtys avals 1 j JObjectTy v Hj eq_refl Hv). }
    split; [exact (expected_trace_native_call w true r dtys m e avals mem0)|].
    unfold native_args, actual_types, first_slot. cbn [app Nat.add nth_error].
    rewrite (marshal_rt_nth dtys avals 1 j JObjectTy v Hj Hv). cbn [is_JObjectTy].
    split; [intros ->; reflexivity|].
    intros Hn. destruct v; try reflexivity. now destruct Hn.
  - destruct avals as [|this dvals]; [discriminate|]. cbn [nth_error] in Hv.
    split.
    { apply expected_trace_slot_store_In. unfold stored_refs, actual_types.
      cbn [app slot_stores ref_values is_JObjectTy]. right.
      apply (slot_stores_In dtys dvals 1 j JObjectTy v Hj eq_refl Hv). }
    split; [exact (expected_trace_native_call w false r dtys m e (this :: dvals) mem0)|].
    unfold native_args, actual_types, first_slot.
    cbn [app Nat.add nth_error marshal_rt is_JObjectTy].
    rewrite (marshal_rt_nth dtys dvals 1 j JObjectTy v Hj Hv). cbn [is_JObjectTy].
    split; [intros ->; reflexivity|].
    intros Hn. destruct v; try reflexivity. now destruct Hn.
Qed.

Lemma C3_witness :
  exists c code nargs,
    run_stub (sample_world 4) (func_ (sample_compiled false "LLI"))
             [RObj 3; RObj 10; RNull; RInt 5] (sample_memory 11 20 (RObj 50)) = Some c /\
    In (EStore (RSlot 1) RNull) (trace c) /\
    In (ENativeCall code nargs) (trace c) /\
    (RNull = RNull -> nth_error nargs 2 = Some RNull) /\
    (RNull <> RNull -> nth_error nargs 2 = Some (RSlot 1)).
Proof.
  apply (C3_reference_argument (fun _ => false) (sample_jc false "LLI")
           (sample_compiled false "LLI") (sample_world 4)
           [RObj 3; RObj 10; RNull; RInt 5] (sample_memory 11 20 (RObj 50)) 3 2
           [JObjectTy; Int32Ty] 0 RNull).
  - vm_compute; reflexivity.
  - split; [reflexivity|]. split; [vm_compute; reflexivity|]. split; [reflexivity|].
    intros f xs m. reflexivity.
  - reflexivity.
  - reflexivity.
  - reflexivity.
Defined.

(** *** C6 *)

(** C6, as stated, fails: in the run of the stub of the instance method with
    shorty "VL" the receiver is stored into its slot (event 9) after the
    thread state was set to native (event 7). *)
Lemma C6_counterexample :
  exists c,
    run_sample false "VL" 0 [RObj 3; RObj 10; RObj 11] (sample_memory 11 20 RNull)
    = Some c /\
    nth_error (trace c) 7 = Some (EStore (RField 1 StateOffset) (RState kNative)) /\
    nth_error (trace c) 9 = Some (EStore (RSlot 0) (RObj 10)) /\
    ~ occurs_before is_slot_store (is_state_store kNative) (trace c).
Proof.
  eexists. split; [vm_compute; reflexivity|].
  split; [reflexivity|]. split; [reflexivity|].
  intros H. specialize (H 9 7 _ _ eq_refl eq_refl eq_refl eq_refl). lia.
Qed.

(** C6 (amended): the stages of the stub run in this order, each once: the
    frame is pushed; the thread state is set to native; the arguments are
    bound (slot 0 and the slots after it receive the class or receiver and
    the reference-typed declared arguments, and the foreign argument list is
    the environment, the class or receiver handle and the marshalled declared
    arguments); the foreign function is called; the thread state is set to
    runnable; the return value is decoded (return tag "L" only); the frame is
    popped; the stub returns.  So the thread state is set to native before
    the arguments are bound, and all arguments are bound before the foreign
    call. *)
Theorem C6_stage_order (verify : Function -> bool) (jc : JniCompiler)
    (cm : Compiled) (w : World) (fargs : list rv) (mem0 : memory) (m e : nat) :
  Compile verify jc = Some cm ->
  well_called w (func_ cm) fargs mem0 m e ->
  let is_static := IsStatic (method_ jc) in
  let t := current_thread w in
  exists c r dtys x0 dvals,
    run_stub w (func_ cm) fargs mem0 = Some c /\
    ret_shorty_of jc = Some r /\
    declared_types jc = Some dtys /\
    fargs = RObj m :: (if is_static then [] else [x0]) ++ dvals /\
    List.length dvals = List.length dtys /\
    (is_static = true -> x0 = heap mem0 m DeclaringClassOffset) /\
    let fc := foreign_call w is_static dtys m e (tl fargs) mem0 in
    filter is_stage_event (trace c) =
    [ ERuntimeCall PushShadowFrame [RArtFrame];
      EStore (RField t StateOffset) (RState kNative) ]
    ++ slot_stores 0 (x0 :: ref_values dtys dvals)
    ++ [ ENativeCall (heap mem0 m NativeMethodOffset)
                     (RObj e
                      :: (if is_static then RSlot 0
                          else if is_null x0 then RNull else RSlot 0)
                      :: marshal_rt 1 dtys dvals);
         EStore (RField t StateOffset) (RState kRunnable) ]
    ++ (if Ascii.eqb r "L"
        then [ERuntimeCall DecodeJObjectInThread [RObj t; fst fc]]
        else [])
    ++ [ ERuntimeCall PopShadowFrame [];
         EReturn (final_value w r (fst fc) (snd fc)) ] /\
    occurs is_push (trace c) /\
    occurs (is_state_store kNative) (trace c) /\
    occurs is_slot_store (trace c) /\
    occurs is_native_call (trace c) /\
    occurs (is_state_store kRunnable) (trace c) /\
    (r = "L" -> occurs is_decode (trace c)) /\
    occurs is_pop (trace c) /\
    occurs is_return (trace c) /\
    occurs_before is_push (is_state_store kNative) (trace c) /\
    occurs_before (is_state_store kNative) is_slot_store (trace c) /\
    occurs_before is_slot_store is_native_call (trace c) /\
    occurs_before is_native_call (is_state_store kRunnable) (trace c) /\
    occurs_before (is_state_store kRunnable) is_decode (trace c) /\
    occurs_before (is_state_store kRunnable) is_pop (trace c) /\
    occurs_before is_decode is_pop (trace c) /\
    occurs_before is_pop is_return (trace c).
Proof.
  intros HC Hw is_static t.
  destruct (run_stub_spec verify jc cm w fargs mem0 m e HC Hw)
    as (r & dtys & avals & R & Hres & -> & Hlen & Hrun).
  cbv zeta in Hrun. fold is_static in Hrun, Hlen. cbn [tl].
  pose proof (expected_trace_stage_events w is_static r dtys m e avals mem0) as Hst.
  cbv zeta in Hst. fold t in Hst.
  assert (Hocc : forall p ev,
             In ev (filter is_stage_event
                           (expected_trace w is_static r dtys m e avals mem0)) ->
             p ev = true ->
             occurs p (expected_trace w is_static r dtys m e avals mem0)).
  { intros p ev Hin Hp. unfold occurs. apply existsb_exists. exists ev.
    apply filter_In in Hin. tauto. }
  assert (Hrest :
    occurs is_push (expected_trace w is_static r dtys m e avals mem0) /\
    occurs (is_state_store kNative) (expected_trace w is_static r dtys m e avals mem0) /\
    occurs is_slot_store (expected_trace w is_static r dtys m e avals mem0) /\
    occurs is_native_call (expected_trace w is_static r dtys m e avals mem0) /\
    occurs (is_state_store kRunnable) (expected_trace w is_static r dtys m e avals mem0) /\
    (r = "L" -> occurs is_decode (expected_trace w is_static r dtys m e avals mem0)) /\
    occurs is_pop (expected_trace w is_static r dtys m e avals mem0) /\
    occurs is_return (expected_trace w is_static r dtys m e avals mem0) /\
    occurs_before is_push (is_state_store kNative)
                  (expected_trace w is_static r dtys m e avals mem0) /\
    occurs_before (is_state_store kNative) is_slot_store
                  (expected_trace w is_static r dtys m e avals mem0) /\
    occurs_before is_slot_store is_native_call
                  (expected_trace w is_static r dtys m e avals mem0) /\
    occurs_before is_native_call (is_state_store kRunnable)
                  (expected_trace w is_static r dtys m e avals mem0) /\
    occurs_before (is_state_store kRunnable) is_decode
                  (expected_trace w is_static r dtys m e avals mem0) /\
    occurs_before (is_state_store kRunnable) is_pop
                  (expected_trace w is_static r dtys m e avals mem0) /\
    occurs_before is_decode is_pop
                  (expected_trace w is_static r dtys m e avals mem0) /\
    occurs_before is_pop is_return
                  (expected_trace w is_static r dtys m e avals mem0)).
  { split; [apply (Hocc _ (ERuntimeCall PushShadowFrame [RArtFrame]));
            [rewrite Hst; now left | reflexivity]|].
    split; [apply expected_trace_native_store|].
    split; [now apply expected_trace_slot_store|].
    split.
    { unfold occurs. apply existsb_exists. eexists.
      split; [apply expected_trace_native_call | reflexivity]. }
    split.
    { apply (Hocc _ (EStore (RField t StateOffset) (RState kRunnable)));
        [|reflexivity].
      rewrite Hst, !in_app_iff. do 2 right. left. right. now left. }
    split.
    { intros ->.
      apply (Hocc _ (ERuntimeCall DecodeJObjectInThread
                       [RObj t; fst (foreign_call w is_static dtys m e avals mem0)]));
        [|reflexivity].
      rewrite Hst, !in_app_iff. do 3 right. left. now left. }
    split.
    { apply (Hocc _ (ERuntimeCall PopShadowFrame [])); [|reflexivity].
      rewrite Hst, !in_app_iff. do 4 right. now left. }
    split.
    { apply (Hocc _ (EReturn (final_value w r
                                (fst (foreign_call w is_static dtys m e avals mem0))
                                (snd (foreign_call w is_static dtys m e avals mem0)))));
        [|reflexivity].
      rewrite Hst, !in_app_iff. do 4 right. right. now left. }
    split; [stage_order 1|]. split; [stage_order 2|]. split; [stage_order 3|].
    split; [stage_order 5|]. split; [stage_order 6|]. split; [stage_order 6|].
    split; [stage_order 7|]. stage_order 9. }
  revert Hrun Hlen Hst Hrest.
  unfold stored_refs, native_args, actual_types, first_slot.
  destruct is_static; cbn [app List.length]; intros Hrun Hlen Hst Hrest.
  - eexists. exists r, dtys, (heap mem0 m DeclaringClassOffset), avals.
    split; [exact Hrun|]. split; [exact (proj1 Hres)|].
    split; [exact (proj2 (proj2 Hres))|]. split; [reflexivity|].
    split; [exact Hlen|]. split; [reflexivity|].
    cbv zeta. cbn [trace]. split; [exact Hst | exact Hrest].
  - destruct avals as [|this dvals]; [discriminate|]. injection Hlen as Hlen.
    cbn [ref_values marshal_rt is_JObjectTy] in Hst.
    eexists. exists r, dtys, this, dvals.
    split; [exact Hrun|]. split; [exact (proj1 Hres)|].
    split; [exact (proj2 (proj2 Hres))|]. split; [reflexivity|].
    split; [exact Hlen|]. split; [discriminate|].
    cbv zeta. cbn [trace]. split; [exact Hst | exact Hrest].
Qed.

Lemma C6_witness :
  let is_static := IsStatic (method_ (sample_jc false "LLI")) in
  let t := current_thread (sample_world 4) in
  exists c r dtys x0 dvals,
    run_stub (sample_world 4) (func_ (sample_compiled false "LLI"))
             [RObj 3; RObj 10; RNull; RInt 5] (sample_memory 11 20 (RObj 50)) = Some c /\
    ret_shorty_of (sample_jc false "LLI") = Some r /\
    declared_types (sample_jc false "LLI") = Some dtys /\
    [RObj 3; RObj 10; RNull; RInt 5] =
    RObj 3 :: (if is_static then [] else [x0]) ++ dvals /\
    List.length dvals = List.length dtys /\
    (is_static = true ->
     x0 = heap (sample_memory 11 20 (RObj 50)) 3 DeclaringClassOffset) /\
    let fc := foreign_call (sample_world 4) is_static dtys 3 2
                (tl [RObj 3; RObj 10; RNull; RInt 5]) (sample_memory 11 20 (RObj 50)) in
    filter is_stage_event (trace c) =
    [ ERuntimeCall PushShadowFrame [RArtFrame];
      EStore (RField t StateOffset) (RState kNative) ]
    ++ slot_stores 0 (x0 :: ref_values dtys dvals)
    ++ [ ENativeCall (heap (sample_memory 11 20 (RObj 50)) 3 NativeMethodOffset)
                     (RObj 2
                      :: (if is_static then RSlot 0
                          else if is_null x0 then RNull else RSlot 0)
                      :: marshal_rt 1 dtys dvals);
         EStore (RField t StateOffset) (RState kRunnable) ]
    ++ (if Ascii.eqb r "L"
        then [ERuntimeCall DecodeJObjectInThread [RObj t; fst fc]]
        else [])
    ++ [ ERuntimeCall PopShadowFrame [];
         EReturn (final_value (sample_world 4) r (fst fc) (snd fc)) ] /\
    occurs is_push (trace c) /\
    occurs (is_state_store kNative) (trace c) /\
    occurs is_slot_store (trace c) /\
    occurs is_native_call (trace c) /\
    occurs (is_state_store kRunnable) (trace c) /\
    (r = "L" -> occurs is_decode (trace c)) /\
    occurs is_pop (trace c) /\
    occurs is_return (trace c) /\
    occurs_before is_push (is_state_store kNative) (trace c) /\
    occurs_before (is_state_store kNative) is_slot_store (trace c) /\
    occurs_before is_slot_store is_native_call (trace c) /\
    occurs_before is_native_call (is_state_store kRunnable) (trace c) /\
    occurs_before (is_state_store kRunnable) is_decode (trace c) /\
    occurs_before (is_state_store kRunnable) is_pop (trace c) /\
    occurs_before is_decode is_pop (trace c) /\
    occurs_before is_pop is_return (trace c).
Proof.
  apply (C6_stage_order (fun _ => false) (sample_jc false "LLI")
           (sample_compiled false "LLI") (sample_world 4)
           [RObj 3; RObj 10; RNull; RInt 5] (sample_memory 11 20 (RObj 50)) 3 2).
  - vm_compute; reflexivity.
  - split; [reflexivity|]. split; [vm_compute; reflexivity|]. split; [reflexivity|].
    intros f xs m. reflexivity.
Defined.

(** *** C7 *)

(** C7, as stated, fails: in the run of the stub of the instance method with
    shorty "V", where the foreign function creates four local references and
    so advances the segment state from 20 to 24, no event after the call reads
    the segment-state field, and the value the stub writes into it is 20, the
    content of the cookie field, not the advanced state 24. *)
Lemma C7_counterexample :
  exists c,
    run_sample false "V" 4 [RObj 3; RObj 10] (sample_memory 11 20 RNull) = Some c /\
    heap (snd (foreign_call (sample_world 4) false [] 3 2 [RObj 10]
                            (sample_memory 11 20 RNull)))
         2 SegmentStateOffset = RInt 24 /\
    existsb (is_segment_state_load 2) (after_call (trace c)) = false /\
    In (EStore (RField 2 SegmentStateOffset) (RInt 20)) (after_call (trace c)) /\
    heap (mem c) 2 SegmentStateOffset = RInt 20.
Proof.
  eexists. split; [vm_compute; reflexivity|].
  split; [reflexivity|]. split; [reflexivity|]. split; [|reflexivity].
  cbn. tauto.
Qed.

(** C7 (amended): right before the foreign call the stub reads the cookie and
    the segment state of the environment and stores the segment state into
    the cookie field.  After the call, which leaves the cookie field alone, it
    sets the thread state to runnable, decodes a reference-typed return
    value, and then its scope epilogue reads the cookie field, which still
    holds the segment state captured before the call, writes that value into
    the segment-state field, and restores the cookie saved before the call
    into the cookie field; then it pops the frame and returns.  The
    segment-state field is not read after the call: whatever the foreign
    function made of the segment state is discarded, and on return both
    fields hold what they held when the stub was entered. *)
Theorem C7_scope_epilogue (verify : Function -> bool) (jc : JniCompiler)
    (cm : Compiled) (w : World) (fargs : list rv) (mem0 : memory) (m e : nat) :
  Compile verify jc = Some cm ->
  well_called w (func_ cm) fargs mem0 m e ->
  keeps_cookie w e ->
  let is_static := IsStatic (method_ jc) in
  let t := current_thread w in
  exists c r dtys pre,
    run_stub w (func_ cm) fargs mem0 = Some c /\
    ret_shorty_of jc = Some r /\
    declared_types jc = Some dtys /\
    let fc := foreign_call w is_static dtys m e (tl fargs) mem0 in
    trace c =
    pre
    ++ [ ELoad (RField e LocalRefCookieOffset) (heap mem0 e LocalRefCookieOffset);
         ELoad (RField e SegmentStateOffset) (heap mem0 e SegmentStateOffset);
         EStore (RField e LocalRefCookieOffset) (heap mem0 e SegmentStateOffset);
         ENativeCall (heap mem0 m NativeMethodOffset)
                     (native_args is_static e (actual_types is_static dtys)
                                  (tl fargs)) ]
    ++ after_call (trace c) /\
    after_call (trace c) =
    EStore (RField t StateOffset) (RState kRunnable)
    :: (if Ascii.eqb r "L"
        then [ERuntimeCall DecodeJObjectInThread [RObj t; fst fc]]
        else [])
    ++ [ ELoad (RField e LocalRefCookieOffset) (heap mem0 e SegmentStateOffset);
         EStore (RField e SegmentStateOffset) (heap mem0 e SegmentStateOffset);
         EStore (RField e LocalRefCookieOffset) (heap mem0 e LocalRefCookieOffset);
         ERuntimeCall PopShadowFrame [];
         EReturn (final_value w r (fst fc) (snd fc)) ] /\
    existsb (is_segment_state_load e) (after_call (trace c)) = false /\
    heap (snd fc) e LocalRefCookieOffset = heap mem0 e SegmentStateOffset /\
    heap (mem c) e SegmentStateOffset = heap mem0 e SegmentStateOffset /\
    heap (mem c) e LocalRefCookieOffset = heap mem0 e LocalRefCookieOffset.
Proof.
  intros HC Hw Hk is_static t.
  destruct (run_stub_spec verify jc cm w fargs mem0 m e HC Hw)
    as (r & dtys & avals & R & Hres & -> & Hlen & Hrun).
  cbv zeta in Hrun. fold is_static in Hrun. cbn [tl].
  assert (Hcookie :
            heap (snd (foreign_call w is_static dtys m e avals mem0))
                 e LocalRefCookieOffset = heap mem0 e SegmentStateOffset).
  { unfold foreign_call. rewrite Hk. unfold memory_at_call. cbn [heap].
    apply hupd_same. }
  pose proof (expected_trace_after_call w is_static r dtys m e avals mem0) as Ha.
  cbv zeta in Ha. unfold trace_after_call in Ha. rewrite Hcookie in Ha.
  eexists. exists r, dtys.
  exists
    ([ ERuntimeCall GetCurrentThread [];
       EStore RFrame (RZeroFrame (sirt_size_of is_static (actual_types is_static dtys)));
       EStore (RHeader 2) (RObj m);
       EStore (RHeader 0)
              (RInt (Z.of_nat (sirt_size_of is_static (actual_types is_static dtys))));
       ERuntimeCall PushShadowFrame [RArtFrame];
       EStore (RField t TopOfManagedStackOffset) (RHeader 2);
       ELoad (RField t JniEnvOffset) (RObj e);
       EStore (RField t StateOffset) (RState kNative);
       ELoad (RField m NativeMethodOffset) (heap mem0 m NativeMethodOffset) ]
     ++ (if is_static
         then [ELoad (RField m DeclaringClassOffset)
                     (heap mem0 m DeclaringClassOffset)]
         else [])
     ++ slot_stores 0 (stored_refs is_static (heap mem0 m DeclaringClassOffset)
                                   (actual_types is_static dtys) avals)).
  split; [exact Hrun|]. split; [exact (proj1 Hres)|].
  split; [exact (proj2 (proj2 Hres))|].
  cbv zeta. cbn [trace mem]. rewrite Ha.
  split.
  { unfold expected_trace, trace_before_call, trace_after_call.
    rewrite Hcookie. fold t. rewrite <- !app_assoc. reflexivity. }
  split; [reflexivity|]. split.
  { cbn [app]. destruct (Ascii.eqb r "L"); cbn; reflexivity. }
  split; [exact Hcookie|].
  unfold memory_at_return. cbn [heap]. split; [|apply hupd_same].
  rewrite Hcookie. unfold hupd. cbn. now rewrite !Nat.eqb_refl.
Qed.

Lemma C7_witness :
  let is_static := IsStatic (method_ (sample_jc false "LLI")) in
  let t := current_thread (sample_world 4) in
  exists c r dtys pre,
    run_stub (sample_world 4) (func_ (sample_compiled false "LLI"))
             [RObj 3; RObj 10; RNull; RInt 5] (sample_memory 11 20 (RObj 50)) = Some c /\
    ret_shorty_of (sample_jc false "LLI") = Some r /\
    declared_types (sample_jc false "LLI") = Some dtys /\
    let fc := foreign_call (sample_world 4) is_static dtys 3 2
                (tl [RObj 3; RObj 10; RNull; RInt 5]) (sample_memory 11 20 (RObj 50)) in
    trace c =
    pre
    ++ [ ELoad (RField 2 LocalRefCookieOffset)
               (heap (sample_memory 11 20 (RObj 50)) 2 LocalRefCookieOffset);
         ELoad (RField 2 SegmentStateOffset)
               (heap (sample_memory 11 20 (RObj 50)) 2 SegmentStateOffset);
         EStore (RField 2 LocalRefCookieOffset)
                (heap (sample_memory 11 20 (RObj 50)) 2 SegmentStateOffset);
         ENativeCall (heap (sample_memory 11 20 (RObj 50)) 3 NativeMethodOffset)
                     (native_args is_static 2 (actual_types is_static dtys)
                                  (tl [RObj 3; RObj 10; RNull; RInt 5])) ]
    ++ after_call (trace c) /\
    after_call (trace c) =
    EStore (RField t StateOffset) (RState kRunnable)
    :: (if Ascii.eqb r "L"
        then [ERuntimeCall DecodeJObjectInThread [RObj t; fst fc]]
        else [])
    ++ [ ELoad (RField 2 LocalRefCookieOffset)
               (heap (sample_memory 11 20 (RObj 50)) 2 SegmentStateOffset);
         EStore (RField 2 SegmentStateOffset)
                (heap (sample_memory 11 20 (RObj 50)) 2 SegmentStateOffset);
         EStore (RField 2 LocalRefCookieOffset)
                (heap (sample_memory 11 20 (RObj 50)) 2 LocalRefCookieOffset);
         ERuntimeCall PopShadowFrame [];
         EReturn (final_value (sample_world 4) r (fst fc) (snd fc)) ] /\
    existsb (is_segment_state_load 2) (after_call (trace c)) = false /\
    heap (snd fc) 2 LocalRefCookieOffset =
    heap (sample_memory 11 20 (RObj 50)) 2 SegmentStateOffset /\
    heap (mem c) 2 SegmentStateOffset =
    heap (sample_memory 11 20 (RObj 50)) 2 SegmentStateOffset /\
    heap (mem c) 2 LocalRefCookieOffset =
    heap (sample_memory 11 20 (RObj 50)) 2 LocalRefCookieOffset.
Proof.
  apply (C7_scope_epilogue (fun _ => false) (sample_jc false "LLI")
           (sample_compiled false "LLI") (sample_world 4)
           [RObj 3; RObj 10; RNull; RInt 5] (sample_memory 11 20 (RObj 50)) 3 2).
  - vm_compute; reflexivity.
  - split; [reflexivity|]. split; [vm_compute; reflexivity|]. split; [reflexivity|].
    intros f xs m. reflexivity.
  - intros f xs m. reflexivity.
Defined.

(** *** C8 *)

(** C8: the foreign function receives the environment handle, then the handle
    of the class (static method) or of the receiver (instance method), then
    one marshalled value per declared argument, in declaration order; the
    stores into the shadow frame fill slot 0 with the class or the receiver
    and the slots after it, without gaps, with the reference-typed declared
    arguments in declaration order. *)
Theorem C8_foreign_argument_list (verify : Function -> bool) (jc : JniCompiler)
    (cm : Compiled) (w : World) (fargs : list rv) (mem0 : memory) (m e : nat)
    (dtys : list Ty) :
  Compile verify jc = Some cm ->
  well_called w (func_ cm) fargs mem0 m e ->
  declared_types jc = Some dtys ->
  let is_static := IsStatic (method_ jc) in
  exists c code nargs x0 dvals,
    run_stub w (func_ cm) fargs mem0 = Some c /\
    fargs = RObj m :: (if is_static then [] else [x0]) ++ dvals /\
    List.length dvals = List.length dtys /\
    (is_static = true -> x0 = heap mem0 m DeclaringClassOffset) /\
    In (ENativeCall code nargs) (trace c) /\
    nargs = RObj e
            :: (if is_static then RSlot 0
                else if is_null x0 then RNull else RSlot 0)
            :: marshal_rt 1 dtys dvals /\
    List.length nargs = 2 + List.length dtys /\
    filter is_slot_store (trace c) = slot_stores 0 (x0 :: ref_values dtys dvals).
Proof.
  intros HC Hw Hd is_static.
  destruct (run_stub_spec verify jc cm w fargs mem0 m e HC Hw)
    as (r & dtys' & avals & R & Hres & -> & Hlen & Hrun).
  assert (dtys' = dtys) as -> by (destruct Hres as (_ & _ & H); congruence).
  cbv zeta in Hrun. fold is_static in Hrun, Hlen.
  pose proof (expected_trace_native_call w is_static r dtys m e avals mem0) as Hcall.
  pose proof (expected_trace_slot_stores w is_static r dtys m e avals mem0) as Hslots.
  revert Hrun Hlen Hcall Hslots.
  unfold native_args, stored_refs, actual_types, first_slot.
  destruct is_static; cbn [app List.length]; intros Hrun Hlen Hcall Hslots.
  - eexists. exists (heap mem0 m NativeMethodOffset). eexists.
    exists (heap mem0 m DeclaringClassOffset), avals.
    split; [exact Hrun|]. cbn [trace].
    split; [reflexivity|]. split; [exact Hlen|]. split; [reflexivity|].
    split; [exact Hcall|]. split; [reflexivity|].
    split; [|exact Hslots].
    cbn [List.length]. rewrite marshal_rt_length by exact Hlen. reflexivity.
  - destruct avals as [|this dvals]; [discriminate|]. injection Hlen as Hlen.
    eexists. exists (heap mem0 m NativeMethodOffset). eexists. exists this, dvals.
    split; [exact Hrun|]. cbn [trace].
    split; [reflexivity|]. split; [exact Hlen|]. split; [discriminate|].
    split; [exact Hcall|]. split; [reflexivity|].
    split; [|exact Hslots].
    cbn [List.length marshal_rt is_JObjectTy].
    rewrite marshal_rt_length by exact Hlen. reflexivity.
Qed.

Lemma C8_witness :
  exists c code nargs x0 dvals,
    run_stub (sample_world 4) (func_ (sample_compiled false "LLI"))
             [RObj 3; RObj 10; RNull; RInt 5] (sample_memory 11 20 (RObj 50)) = Some c /\
    [RObj 3; RObj 10; RNull; RInt 5] =
    RObj 3 :: (if IsStatic (method_ (sample_jc false "LLI")) then [] else [x0]) ++ dvals /\
    List.length dvals = List.length [JObjectTy; Int32Ty] /\
    (IsStatic (method_ (sample_jc false "LLI")) = true ->
     x0 = heap (sample_memory 11 20 (RObj 50)) 3 DeclaringClassOffset) /\
    In (ENativeCall code nargs) (trace c) /\
    nargs = RObj 2
            :: (if IsStatic (method_ (sample_jc false "LLI")) then RSlot 0
                else if is_null x0 then RNull else RSlot 0)
            :: marshal_rt 1 [JObjectTy; Int32Ty] dvals /\
    List.length nargs = 2 + List.length [JObjectTy; Int32Ty] /\
    filter is_slot_store (trace c) =
    slot_stores 0 (x0 :: ref_values [JObjectTy; Int32Ty] dvals).
Proof.
  apply (C8_foreign_argument_list (fun _ => false) (sample_jc false "LLI")
           (sample_compiled false "LLI") (sample_world 4)
           [RObj 3; RObj 10; RNull; RInt 5] (sample_memory 11 20 (RObj 50)) 3 2
           [JObjectTy; Int32Ty]).
  - vm_compute; reflexivity.
  - split; [reflexivity|]. split; [vm_compute; reflexivity|]. split; [reflexivity|].
    intros f xs m. reflexivity.
  - reflexivity.
Defined.

(** *** C9 *)

(** C9: the body of the stub contains a call of the decode function if and
    only if the return tag of the method is "L"; the stub returns the decoded
    value for a reference return, the raw result of the foreign call for every
    other return tag but "V", and no value for "V". *)
Theorem C9_return_adapter (verify : Function -> bool) (jc : JniCompiler)
    (cm : Compiled) (w : World) (fargs : list rv) (mem0 : memory) (m e : nat)
    (r : ascii) :
  Compile verify jc = Some cm ->
  well_called w (func_ cm) fargs mem0 m e ->
  ret_shorty_of jc = Some r ->
  ((exists args, In (ICall (Runtime DecodeJObjectInThread) args)
                    (fn_body (func_ cm)))
   <-> r = "L") /\
  (occurs is_decode (trace_of (run_stub w (func_ cm) fargs mem0)) <-> r = "L") /\
  exists c dtys avals,
    run_stub w (func_ cm) fargs mem0 = Some c /\
    declared_types jc = Some dtys /\
    fargs = RObj m :: avals /\
    let fc := foreign_call w (IsStatic (method_ jc)) dtys m e avals mem0 in
    (r = "V" -> returned c = Some None) /\
    (r <> "V" -> r <> "L" -> returned c = Some (Some (fst fc))) /\
    (r = "L" ->
     returned c =
     Some (Some (decode_jobject w (memory_at_decode (current_thread w) (snd fc))
                                (RObj (current_thread w)) (fst fc)))).
Proof.
  intros HC Hw Hr.
  destruct (Compile_inv verify jc cm HC) as (r1 & rt & dtys1 & Hres1 & Hrt & Hf & _).
  destruct (run_stub_spec verify jc cm w fargs mem0 m e HC Hw)
    as (r' & dtys & avals & R & Hres & -> & Hlen & Hrun).
  rewrite (ret_shorty_resolved jc r1 r dtys1 Hres1 Hr) in *.
  rewrite (ret_shorty_resolved jc r' r dtys Hres Hr) in *.
  cbv zeta in Hrun. split; [|split].
  - rewrite Hf. cbn [fn_body]. apply stub_body_decode.
  - rewrite Hrun. cbn [trace_of trace]. unfold occurs.
    rewrite expected_trace_stages. unfold stages. cbn [List.concat].
    rewrite !existsb_app, existsb_slot_stores by reflexivity.
    rewrite <- Ascii.eqb_eq.
    destruct (IsStatic (method_ jc)), (Ascii.eqb r "L"); cbn; intuition congruence.
  - eexists. exists dtys, avals. split; [exact Hrun|].
    split; [exact (proj2 (proj2 Hres))|]. split; [reflexivity|].
    cbv zeta. cbn [returned]. unfold final_value. split; [|split].
    + intros ->. reflexivity.
    + intros HV HL. apply Ascii.eqb_neq in HV, HL. now rewrite HV, HL.
    + intros ->. reflexivity.
Qed.

Lemma C9_witness :
  ((exists args, In (ICall (Runtime DecodeJObjectInThread) args)
                    (fn_body (func_ (sample_compiled false "LLI"))))
   <-> "L" = "L") /\
  (occurs is_decode
     (trace_of (run_stub (sample_world 4) (func_ (sample_compiled false "LLI"))
                         [RObj 3; RObj 10; RNull; RInt 5]
                         (sample_memory 11 20 (RObj 50))))
   <-> "L" = "L") /\
  exists c dtys avals,
    run_stub (sample_world 4) (func_ (sample_compiled false "LLI"))
             [RObj 3; RObj 10; RNull; RInt 5] (sample_memory 11 20 (RObj 50)) = Some c /\
    declared_types (sample_jc false "LLI") = Some dtys /\
    [RObj 3; RObj 10; RNull; RInt 5] = RObj 3 :: avals /\
    let fc := foreign_call (sample_world 4)
                (IsStatic (method_ (sample_jc false "LLI"))) dtys 3 2 avals
                (sample_memory 11 20 (RObj 50)) in
    ("L" = "V" -> returned c = Some None) /\
    ("L" <> "V" -> "L" <> "L" -> returned c = Some (Some (fst fc))) /\
    ("L" = "L" ->
     returned c =
     Some (Some (decode_jobject (sample_world 4)
                   (memory_at_decode (current_thread (sample_world 4)) (snd fc))
                   (RObj (current_thread (sample_world 4))) (fst fc)))).
Proof.
  apply (C9_return_adapter (fun _ => false) (sample_jc false "LLI")
           (sample_compiled false "LLI") (sample_world 4)
           [RObj 3; RObj 10; RNull; RInt 5] (sample_memory 11 20 (RObj 50)) 3 2 "L").
  - vm_compute; reflexivity.
  - split; [reflexivity|]. split; [vm_compute; reflexivity|]. split; [reflexivity|].
    intros f xs m. reflexivity.
  - reflexivity.
Defined.

(** *** C10 *)

(** C10: the stub of a static method loads the declaring class of the method,
    stores it into slot 0 of the shadow frame and passes the address of that
    slot, cast to a reference handle, as the second argument of the foreign
    call; no null test is made, so the foreign function receives the slot
    address whatever the class pointer is, null included. *)
Theorem C10_class_handle (verify : Function -> bool) (jc : JniCompiler)
    (cm : Compiled) (w : World) (fargs : list rv) (mem0 : memory) (m e : nat) :
  Compile verify jc = Some cm ->
  well_called w (func_ cm) fargs mem0 m e ->
  IsStatic (method_ jc) = true ->
  let body := fn_body (func_ cm) in
  nth_error body 17 =
    Some (IPtrDisp (VArg 0) (VPtrEquivInt DeclaringClassOffset) (PointerTy JObjectTy)) /\
  nth_error body 18 = Some (ILoad (VReg 17)) /\
  nth_error body 19 = Some (IGEP (VReg 1) [VInt32 0; VInt32 1; VInt32 0]) /\
  nth_error body 20 = Some (IStore (VReg 18) (VReg 19)) /\
  nth_error body 21 = Some (IBitCast (VReg 19) JObjectTy) /\
  (exists rest, In (ICall (Indirect (VReg 16)) (VReg 12 :: VReg 21 :: rest)) body) /\
  exists c code nargs,
    run_stub w (func_ cm) fargs mem0 = Some c /\
    In (EStore (RSlot 0) (heap mem0 m DeclaringClassOffset)) (trace c) /\
    In (ENativeCall code nargs) (trace c) /\
    nth_error nargs 1 = Some (RSlot 0).
Proof.
  intros HC Hw Hst body. subst body.
  destruct (Compile_inv verify jc cm HC) as (r1 & rt & dtys1 & Hres1 & Hrt & Hf & _).
  destruct (run_stub_spec verify jc cm w fargs mem0 m e HC Hw)
    as (r & dtys & avals & R & Hres & -> & Hlen & Hrun).
  cbv zeta in Hrun. rewrite Hst in *.
  assert (Hbody : fn_body (func_ cm) = stub_body true r1 rt dtys1)
    by (rewrite Hf; reflexivity).
  rewrite Hbody. clear Hbody Hf.
  unfold stub_body, prologue, class_insns.
  do 5 (split; [reflexivity|]).
  split.
  - eexists. rewrite !in_app_iff. do 3 right. unfold epilogue, call_args.
    rewrite in_app_iff. left. cbn [In app]. do 6 right. left. reflexivity.
  - eexists. exists (heap mem0 m NativeMethodOffset).
    exists (native_args true e (actual_types true dtys) avals).
    split; [exact Hrun|]. cbn [trace].
    split; [|split; [apply expected_trace_native_call | reflexivity]].
    apply expected_trace_slot_store_In. unfold stored_refs. cbn [app slot_stores].
    now left.
Qed.

Lemma C10_witness :
  let body := fn_body (func_ (sample_compiled true "VL")) in
  nth_error body 17 =
    Some (IPtrDisp (VArg 0) (VPtrEquivInt DeclaringClassOffset) (PointerTy JObjectTy)) /\
  nth_error body 18 = Some (ILoad (VReg 17)) /\
  nth_error body 19 = Some (IGEP (VReg 1) [VInt32 0; VInt32 1; VInt32 0]) /\
  nth_error body 20 = Some (IStore (VReg 18) (VReg 19)) /\
  nth_error body 21 = Some (IBitCast (VReg 19) JObjectTy) /\
  (exists rest, In (ICall (Indirect (VReg 16)) (VReg 12 :: VReg 21 :: rest)) body) /\
  exists c code nargs,
    run_stub (sample_world 0) (func_ (sample_compiled true "VL"))
             [RObj 3; RObj 10] (sample_memory 11 20 RNull) = Some c /\
    In (EStore (RSlot 0) (heap (sample_memory 11 20 RNull) 3 DeclaringClassOffset))
       (trace c) /\
    In (ENativeCall code nargs) (trace c) /\
    nth_error nargs 1 = Some (RSlot 0).
Proof.
  apply (C10_class_handle (fun _ => false) (sample_jc true "VL")
           (sample_compiled true "VL") (sample_world 0)
           [RObj 3; RObj 10] (sample_memory 11 20 RNull) 3 2).
  - vm_compute; reflexivity.
  - split; [reflexivity|]. split; [vm_compute; reflexivity|]. split; [reflexivity|].
    intros f xs m. reflexivity.
  - reflexivity.
Defined.
(** ** Further properties of the compiler *)

(** *** The constructor *)

Lemma land_kAccNative (flags : Z) :
  Z.land flags kAccNative = 0%Z <-> Z.testbit flags 8 = false.
Proof.
  unfold kAccNative. change 256%Z with (2 ^ 8)%Z. split.
  - intros H. apply (f_equal (fun z => Z.testbit z 8)) in H.
    rewrite Z.land_spec, Z.pow2_bits_true, andb_true_r in H by lia.
    now rewrite H, Z.bits_0.
  - intros H. apply Z.bits_inj'. intros i Hi.
    rewrite Z.land_spec, Z.bits_0, Z.pow2_bits_eqb by lia.
    destruct (Z.eqb_spec 8 i) as [<-|]; [now rewrite H | apply andb_false_r].
Qed.

(** X1: the constructor aborts exactly when the method index is not resolved
    in the dex cache or the native bit (bit 8, 0x100) of the access flags is
    clear; otherwise the compiler object holds the resolved method and the
    fields of the compilation request. *)
Theorem X1_constructor_checks (cunit : CompilationUnit) (ocu : OatCompilationUnit) :
  (JniCompiler_new cunit ocu = None <->
   oat_dex_cache_ ocu (oat_method_idx_ ocu) = None \/
   Z.testbit (oat_access_flags_ ocu) 8 = false) /\
  (forall jc,
     JniCompiler_new cunit ocu = Some jc ->
     oat_dex_cache_ ocu (oat_method_idx_ ocu) = Some (method_ jc) /\
     Z.testbit (access_flags_ jc) 8 = true /\
     cunit_ jc = cunit /\
     access_flags_ jc = oat_access_flags_ ocu /\
     method_idx_ jc = oat_method_idx_ ocu /\
     dex_file_ jc = oat_dex_file_ ocu).
Proof.
  unfold JniCompiler_new.
  destruct (oat_dex_cache_ ocu (oat_method_idx_ ocu)) as [mth|].
  - destruct (Z.eqb_spec (Z.land (oat_access_flags_ ocu) kAccNative) 0) as [H0|H0].
    + split; [|discriminate]. split; [|reflexivity].
      intros _. right. now apply land_kAccNative.
    + split.
      * split; [discriminate|]. intros [H|H]; [discriminate|].
        now apply land_kAccNative in H.
      * intros jc H. injection H as <-.
        cbn [method_ cunit_ access_flags_ method_idx_ dex_file_].
        repeat split.
        destruct (Z.testbit (oat_access_flags_ ocu) 8) eqn:Hb; [reflexivity|].
        now apply land_kAccNative in Hb.
  - split; [|discriminate]. split; [|reflexivity]. intros _. now left.
Qed.

(** *** Signatures *)

Lemma getJTypes_None (cs : list ascii) :
  getJTypes cs = None <-> exists c, In c cs /\ getJType c = None.
Proof.
  induction cs as [|c cs IH]; simpl.
  - split; [discriminate|]. now intros (c & [] & _).
  - destruct (getJType c) as [t|] eqn:Hc.
    + destruct (getJTypes cs) as [ts|].
      * split; [discriminate|]. intros (c' & [<-|Hin] & H'); [congruence|].
        destruct IH as [_ IH]. discriminate IH. now exists c'.
      * split; [|reflexivity]. intros _.
        destruct IH as [IH _]. destruct (IH eq_refl) as (c' & Hin & H').
        exists c'. auto.
    + split; [|reflexivity]. intros _. exists c. auto.
Qed.

(** X2: the bridge signature and the target signature of a method have the
    same return type and the same declared parameter types; they are equal
    for an instance method, and for a static method the target signature has
    one more reference parameter, in second place, for the declaring class. *)
Theorem X2_bridge_and_target_type (jc : JniCompiler) (is_static : bool)
    (bridge : FunctionType) :
  GetFunctionType jc (method_idx_ jc) is_static false = Some bridge ->
  exists target,
    GetFunctionType jc (method_idx_ jc) is_static true = Some target /\
    ret_type target = ret_type bridge /\
    hd_error (params_type bridge) = Some JObjectTy /\
    (is_static = false -> target = bridge) /\
    (is_static = true ->
     params_type target = JObjectTy :: JObjectTy :: tl (params_type bridge)).
Proof.
  intros H.
  destruct (GetFunctionType_resolved jc is_static false bridge H) as (r & dtys & Hres).
  destruct (getJType r) as [rt|] eqn:Hrt; [|now destruct Hres as (_ & ? & _)].
  rewrite (GetFunctionType_eq jc r dtys rt is_static false Hres Hrt) in H.
  injection H as <-.
  rewrite (GetFunctionType_eq jc r dtys rt is_static true Hres Hrt).
  eexists. split; [reflexivity|]. rewrite orb_true_r, orb_false_r.
  cbn [ret_type params_type hd_error tl].
  split; [reflexivity|]. split; [reflexivity|].
  split; intros ->; reflexivity.
Qed.

Lemma X2_witness :
  exists target,
    GetFunctionType (sample_jc true "ILI") 0 true true = Some target /\
    ret_type target = ret_type (mkFunctionType Int32Ty [JObjectTy; JObjectTy; Int32Ty]) /\
    hd_error (params_type (mkFunctionType Int32Ty [JObjectTy; JObjectTy; Int32Ty]))
    = Some JObjectTy /\
    (true = false ->
     target = mkFunctionType Int32Ty [JObjectTy; JObjectTy; Int32Ty]) /\
    (true = true ->
     params_type target =
     JObjectTy :: JObjectTy
       :: tl (params_type (mkFunctionType Int32Ty [JObjectTy; JObjectTy; Int32Ty]))).
Proof.
  apply (X2_bridge_and_target_type (sample_jc true "ILI") true
           (mkFunctionType Int32Ty [JObjectTy; JObjectTy; Int32Ty])).
  reflexivity.
Defined.

(** X3: [Compile] aborts exactly when the shorty of the method is empty or
    holds a tag that is not a known type tag; in every other case it returns
    an artifact. *)
Theorem X3_compile_aborts_on_bad_shorty (verify : Function -> bool)
    (jc : JniCompiler) :
  Compile verify jc = None <->
  shorty_of jc = [] \/ exists c, In c (shorty_of jc) /\ getJType c = None.
Proof.
  split.
  - intros HC.
    destruct (shorty_of jc) as [|r tail] eqn:Hs; [now left|]. right.
    destruct (getJType r) as [rt|] eqn:Hrt; [|exists r; simpl; auto].
    destruct (getJTypes tail) as [dtys|] eqn:Hd.
    + exfalso.
      assert (Hres : resolved jc r dtys).
      { unfold resolved, ret_shorty_of, declared_types. rewrite Hs. simpl.
        repeat split; congruence. }
      rewrite (Compile_eq verify jc r rt dtys Hres Hrt) in HC. discriminate.
    + apply getJTypes_None in Hd. destruct Hd as (c & Hin & Hc).
      exists c. simpl. auto.
  - intros H. destruct (Compile verify jc) as [cm|] eqn:HC; [|reflexivity].
    exfalso.
    destruct (Compile_inv verify jc cm HC) as (r & rt & dtys & Hres & Hrt & _).
    destruct Hres as (Hr & _ & Hd). unfold ret_shorty_of, declared_types in Hr, Hd.
    destruct H as [H|(c & Hin & Hc)].
    + rewrite H in Hr. discriminate.
    + destruct (shorty_of jc) as [|r' tail]; [destruct Hin|].
      simpl in Hr, Hd. injection Hr as ->. destruct Hin as [<-|Hin]; [congruence|].
      assert (Hn : getJTypes tail = None) by (apply getJTypes_None; eauto).
      congruence.
Qed.

Lemma named_args_names (tys : list Ty) :
  forall i argno,
    map arg_name (named_args i argno tys) = map StringPrintf_a (seq i (List.length tys)) /\
    map arg_type (named_args i argno tys) = tys /\
    map arg_no (named_args i argno tys) = seq argno (List.length tys).
Proof.
  induction tys as [|t tys IH]; intros i argno; simpl; [easy|].
  destruct (IH (S i) (S argno)) as (-> & -> & ->). easy.
Qed.

(** X4: the function [Compile] creates carries the long name of the method;
    its formal arguments are the method pointer, named "method", followed by
    the receiver (instance methods only) and the declared arguments, named
    "a0", "a1", ... in order; they are numbered from 0 and typed as the bridge
    signature says. *)
Theorem X4_function_skeleton (verify : Function -> bool) (jc : JniCompiler)
    (cm : Compiled) (dtys : list Ty) :
  Compile verify jc = Some cm ->
  declared_types jc = Some dtys ->
  let atys := (if IsStatic (method_ jc) then [] else [JObjectTy]) ++ dtys in
  let args := fn_args (func_ cm) in
  fn_name (func_ cm) = LLVMLongName (method_ jc) /\
  map arg_name args = "method"%string :: map StringPrintf_a (seq 0 (List.length atys)) /\
  map arg_type args = JObjectTy :: atys /\
  map arg_type args = params_type (fn_type (func_ cm)) /\
  map arg_no args = seq 0 (S (List.length atys)).
Proof.
  intros HC Hd atys args. subst args.
  destruct (Compile_inv verify jc cm HC) as (r & rt & dtys' & Hres & Hrt & Hf & _).
  assert (dtys' = dtys) as -> by (destruct Hres as (_ & _ & H); congruence).
  rewrite Hf. cbn [fn_name fn_args fn_type params_type map arg_name arg_type arg_no].
  change (actual_types (IsStatic (method_ jc)) dtys) with atys.
  destruct (named_args_names atys 0 1) as (-> & -> & ->).
  repeat split.
Qed.

Lemma X4_witness :
  let atys := (if IsStatic (method_ (sample_jc false "LLI")) then [] else [JObjectTy])
              ++ [JObjectTy; Int32Ty] in
  let args := fn_args (func_ (sample_compiled false "LLI")) in
  fn_name (func_ (sample_compiled false "LLI")) =
  LLVMLongName (method_ (sample_jc false "LLI")) /\
  map arg_name args = "method"%string :: map StringPrintf_a (seq 0 (List.length atys)) /\
  map arg_type args = JObjectTy :: atys /\
  map arg_type args = params_type (fn_type (func_ (sample_compiled false "LLI"))) /\
  map arg_no args = seq 0 (S (List.length atys)).
Proof.
  apply (X4_function_skeleton (fun _ => false) (sample_jc false "LLI")
           (sample_compiled false "LLI") [JObjectTy; Int32Ty]).
  - vm_compute; reflexivity.
  - reflexivity.
Defined.

Lemma getJTypes_length (cs : list ascii) :
  forall tys, getJTypes cs = Some tys -> List.length tys = List.length cs.
Proof.
  induction cs as [|c cs IH]; intros tys H; simpl in H.
  - now injection H as <-.
  - destruct (getJType c); [|discriminate].
    destruct (getJTypes cs) as [ts|]; [|discriminate].
    injection H as <-. simpl. now rewrite (IH ts).
Qed.

Lemma count_refs_le (tys : list Ty) : count_refs tys <= List.length tys.
Proof. unfold count_refs. apply filter_length_le. Qed.

(** X5: the shadow frame never has more slots than the shorty has
    characters, so the 32-bit slot counter of [Compile] cannot wrap around for
    a shorty whose length fits 32 bits. *)
Theorem X5_sirt_size_bounded (verify : Function -> bool) (jc : JniCompiler)
    (cm : Compiled) (n : nat) :
  Compile verify jc = Some cm ->
  nth_error (fn_body (func_ cm)) 1 = Some (IAlloca (ShadowFrameTy n)) ->
  1 <= n <= List.length (shorty_of jc).
Proof.
  intros HC Hn.
  destruct (Compile_inv verify jc cm HC) as (r & rt & dtys & Hres & Hrt & Hf & _).
  rewrite Hf in Hn. cbn in Hn. injection Hn as <-.
  destruct Hres as (Hr & _ & Hd). unfold ret_shorty_of, declared_types in Hr, Hd.
  destruct (shorty_of jc) as [|r' tail]; [discriminate|]. simpl in Hd |- *.
  apply getJTypes_length in Hd. pose proof (count_refs_le dtys) as Hle.
  unfold actual_types, first_slot, count_refs in *.
  destruct (IsStatic (method_ jc)); simpl; lia.
Qed.

Lemma X5_witness : 1 <= 2 <= List.length (shorty_of (sample_jc false "LLI")).
Proof.
  apply (X5_sirt_size_bounded (fun _ => false) (sample_jc false "LLI")
           (sample_compiled false "LLI") 2).
  - vm_compute; reflexivity.
  - reflexivity.
Defined.

(** *** Shape of the emitted block *)

Lemma marshal_insns_no_terminator (tys : list Ty) :
  forall base argno k, existsb is_terminator (marshal_insns base argno k tys) = false.
Proof.
  induction tys as [|t tys IH]; intros base argno k; simpl; [reflexivity|].
  destruct (is_JObjectTy t); simpl; apply IH.
Qed.

(** X6: the block [Compile] emits ends in its only terminator: a return of a
    value, or a void return exactly when the return tag is "V". *)
Theorem X6_single_terminator (verify : Function -> bool) (jc : JniCompiler)
    (cm : Compiled) (r : ascii) :
  Compile verify jc = Some cm ->
  ret_shorty_of jc = Some r ->
  exists init last,
    fn_body (func_ cm) = init ++ [last] /\
    existsb is_terminator init = false /\
    is_terminator last = true /\
    (last = IRetVoid <-> r = "V").
Proof.
  intros HC Hr.
  destruct (Compile_inv verify jc cm HC) as (r1 & rt & dtys & Hres & Hrt & Hf & _).
  rewrite (ret_shorty_resolved jc r1 r dtys Hres Hr) in *.
  rewrite Hf. cbn [fn_body]. unfold stub_body.
  set (st := IsStatic (method_ jc)).
  set (body0 :=
         prologue (first_slot st + count_refs (actual_types st dtys))
                  (target_type_of rt dtys)
         ++ (if st then class_insns else [])
         ++ marshal_insns (first_pos st) 1 (first_slot st) (actual_types st dtys)).
  set (ep := epilogue (first_pos st + 5 * count_refs (actual_types st dtys))
                      (call_args st (actual_types st dtys)) r).
  assert (H0 : existsb is_terminator body0 = false).
  { unfold body0. rewrite !existsb_app, marshal_insns_no_terminator.
    destruct st; reflexivity. }
  assert (Hep : ep = removelast ep ++ [last ep IRetVoid]).
  { apply app_removelast_last. unfold ep, epilogue.
    destruct (Ascii.eqb r "L"); discriminate. }
  exists (body0 ++ removelast ep), (last ep IRetVoid). split.
  - rewrite <- app_assoc, <- Hep. unfold body0. now rewrite <- !app_assoc.
  - rewrite existsb_app, H0. unfold ep, epilogue.
    destruct (Ascii.eqb_spec r "L") as [HL|HL], (Ascii.eqb_spec r "V") as [HV|HV];
      cbn; (split; [reflexivity|split; [reflexivity|split; congruence]]).
Qed.

Lemma X6_witness :
  exists init last,
    fn_body (func_ (sample_compiled false "LLI")) = init ++ [last] /\
    existsb is_terminator init = false /\
    is_terminator last = true /\
    (last = IRetVoid <-> "L" = "V").
Proof.
  apply (X6_single_terminator (fun _ => false) (sample_jc false "LLI")
           (sample_compiled false "LLI") "L").
  - vm_compute; reflexivity.
  - reflexivity.
Defined.

Lemma defined_before_use_app (nargs : nat) (l1 l2 : list instr) :
  forall pos,
    defined_before_use nargs pos (l1 ++ l2) =
    defined_before_use nargs pos l1
    && defined_before_use nargs (pos + List.length l1) l2.
Proof.
  induction l1 as [|i l1 IH]; intros pos; simpl.
  - now rewrite Nat.add_0_r.
  - rewrite IH, Nat.add_succ_r, andb_assoc. reflexivity.
Qed.

Lemma defined_before_use_sound (nargs : nat) (bb : list instr) :
  forall pos i ins v,
    defined_before_use nargs pos bb = true ->
    nth_error bb i = Some ins -> In v (operands ins) ->
    available nargs (pos + i) v = true.
Proof.
  induction bb as [|x bb IH]; intros pos i ins v H Hi Hv.
  - destruct i; discriminate.
  - simpl in H. apply andb_prop in H. destruct H as [Hx Hbb].
    destruct i as [|i]; simpl in Hi.
    + injection Hi as ->. rewrite Nat.add_0_r.
      rewrite forallb_forall in Hx. now apply Hx.
    + rewrite Nat.add_succ_r. apply (IH (S pos) i ins v Hbb Hi Hv).
Qed.

Ltac solve_ltb :=
  repeat match goal with
         | |- context [Nat.ltb ?a ?b] =>
           replace (Nat.ltb a b) with true by (symmetry; apply Nat.ltb_lt; lia)
         end.

Lemma marshal_values_available (nargs P : nat) (tys : list Ty) :
  forall base argno,
    base + 5 * count_refs tys <= P ->
    argno + List.length tys <= nargs ->
    forallb (available nargs P) (marshal_values base argno tys) = true.
Proof.
  unfold count_refs.
  induction tys as [|t tys IH]; intros base argno HP Hn; simpl in *; [reflexivity|].
  destruct (is_JObjectTy t); simpl in *.
  - rewrite IH by lia. solve_ltb. reflexivity.
  - rewrite IH by lia. solve_ltb. reflexivity.
Qed.

Lemma marshal_insns_defined (nargs : nat) (tys : list Ty) :
  forall base argno k,
    2 <= base ->
    argno + List.length tys <= nargs ->
    defined_before_use nargs base (marshal_insns base argno k tys) = true.
Proof.
  induction tys as [|t tys IH]; intros base argno k Hb Hn; simpl in *; [reflexivity|].
  destruct (is_JObjectTy t).
  - cbn [app defined_before_use operands forallb available].
    replace (S (S (S (S (S base))))) with (base + 5) by lia.
    rewrite IH by lia. solve_ltb. reflexivity.
  - apply IH; lia.
Qed.

Lemma epilogue_defined (nargs base : nat) (args : list value) (r : ascii) :
  17 <= base ->
  forallb (available nargs (6 + base)) args = true ->
  defined_before_use nargs base (epilogue base args r) = true.
Proof.
  intros Hb Ha. unfold epilogue.
  destruct (Ascii.eqb r "L"), (Ascii.eqb r "V");
    cbn [app negb defined_before_use operands callee_operands forallb available];
    cbn [Nat.add] in Ha; rewrite Ha; solve_ltb; reflexivity.
Qed.

(** X7: in the block [Compile] emits every operand is defined before it is
    used: an instruction result is only used by later instructions, and every
    formal argument that is used exists. *)
Theorem X7_defined_before_use (verify : Function -> bool) (jc : JniCompiler)
    (cm : Compiled) :
  Compile verify jc = Some cm ->
  let nargs := List.length (fn_args (func_ cm)) in
  defined_before_use nargs 0 (fn_body (func_ cm)) = true /\
  forall pos ins,
    nth_error (fn_body (func_ cm)) pos = Some ins ->
    (forall n, In (VReg n) (operands ins) -> n < pos) /\
    (forall i, In (VArg i) (operands ins) -> i < nargs).
Proof.
  intros HC nargs.
  assert (H : defined_before_use nargs 0 (fn_body (func_ cm)) = true).
  { subst nargs.
    destruct (Compile_inv verify jc cm HC) as (r & rt & dtys & Hres & Hrt & Hf & _).
    rewrite Hf. cbn [fn_body fn_args List.length]. rewrite named_args_length.
    unfold stub_body. set (st := IsStatic (method_ jc)).
    set (atys := actual_types st dtys).
    rewrite !defined_before_use_app, marshal_insns_length.
    assert (Hp : List.length (prologue (first_slot st + count_refs atys)
                                        (target_type_of rt dtys)) = 17)
      by reflexivity.
    rewrite Hp.
    assert (Hpos : 0 + 17 + List.length (if st then class_insns else [])
                   = first_pos st) by (destruct st; reflexivity).
    rewrite Hpos.
    rewrite marshal_insns_defined by (destruct st; simpl; lia).
    rewrite epilogue_defined.
    - destruct st; reflexivity.
    - destruct st; simpl; lia.
    - unfold call_args. cbn [forallb available]. rewrite forallb_app.
      rewrite marshal_values_available by lia.
      destruct st; cbn [forallb available first_pos]; solve_ltb; reflexivity. }
  split; [exact H|]. intros pos ins Hi. split.
  - intros n Hn.
    pose proof (defined_before_use_sound nargs _ 0 pos ins (VReg n) H Hi Hn) as Ha.
    now apply Nat.ltb_lt in Ha.
  - intros i Hin.
    pose proof (defined_before_use_sound nargs _ 0 pos ins (VArg i) H Hi Hin) as Ha.
    now apply Nat.ltb_lt in Ha.
Qed.

Lemma X7_witness :
  let nargs := List.length (fn_args (func_ (sample_compiled false "LLI"))) in
  defined_before_use nargs 0 (fn_body (func_ (sample_compiled false "LLI"))) = true /\
  forall pos ins,
    nth_error (fn_body (func_ (sample_compiled false "LLI"))) pos = Some ins ->
    (forall n, In (VReg n) (operands ins) -> n < pos) /\
    (forall i, In (VArg i) (operands ins) -> i < nargs).
Proof.
  apply (X7_defined_before_use (fun _ => false) (sample_jc false "LLI")
           (sample_compiled false "LLI")).
  vm_compute; reflexivity.
Defined.




(** *** Runs of the stub *)

Lemma slot_stores_length (vs : list rv) :
  forall k, List.length (slot_stores k vs) = List.length vs.
Proof.
  induction vs as [|v vs IH]; intros k; simpl; [reflexivity|]. now rewrite IH.
Qed.

(** X9: a declared argument of primitive type is handed to the foreign
    function unchanged, in its own place, and uses no slot of the shadow
    frame: the stub stores into exactly one slot per reference-typed declared
    argument, plus the slot of the class or receiver. *)
Theorem X9_primitive_argument (verify : Function -> bool) (jc : JniCompiler)
    (cm : Compiled) (w : World) (fargs : list rv) (mem0 : memory) (m e : nat)
    (dtys : list Ty) (j : nat) (t : Ty) (v : rv) :
  Compile verify jc = Some cm ->
  well_called w (func_ cm) fargs mem0 m e ->
  declared_types jc = Some dtys ->
  nth_error dtys j = Some t ->
  is_JObjectTy t = false ->
  nth_error fargs (declared_pos (IsStatic (method_ jc)) j) = Some v ->
  exists c code nargs,
    run_stub w (func_ cm) fargs mem0 = Some c /\
    In (ENativeCall code nargs) (trace c) /\
    nth_error nargs (2 + j) = Some v /\
    List.length (filter is_slot_store (trace c)) = 1 + count_refs dtys.
Proof.
  intros HC Hw Hd Hj Ht Hv.
  destruct (run_stub_spec verify jc cm w fargs mem0 m e HC Hw)
    as (r & dtys' & avals & R & Hres & -> & Hlen & Hrun).
  assert (dtys' = dtys) as -> by (destruct Hres as (_ & _ & H); congruence).
  cbv zeta in Hrun. eexists.
  exists (heap mem0 m NativeMethodOffset).
  exists (native_args (IsStatic (method_ jc)) e
                      (actual_types (IsStatic (method_ jc)) dtys) avals).
  split; [exact Hrun|]. cbn [trace].
  split; [apply expected_trace_native_call|].
  rewrite expected_trace_slot_stores, slot_stores_length.
  revert Hv Hlen. unfold declared_pos, actual_types, native_args, stored_refs, first_slot.
  destruct (IsStatic (method_ jc)); cbn [app Nat.add nth_error]; intros Hv Hlen.
  - rewrite (marshal_rt_nth dtys avals 1 j t v Hj Hv), Ht.
    split; [reflexivity|]. cbn [List.length]. now rewrite ref_values_length.
  - destruct avals as [|this dvals]; [discriminate|]. cbn [nth_error] in Hv.
    injection Hlen as Hlen.
    cbn [marshal_rt ref_values is_JObjectTy nth_error List.length].
    rewrite (marshal_rt_nth dtys dvals 1 j t v Hj Hv), Ht.
    split; [reflexivity|]. now rewrite ref_values_length.
Qed.

Lemma X9_witness :
  exists c code nargs,
    run_stub (sample_world 4) (func_ (sample_compiled false "LLI"))
             [RObj 3; RObj 10; RNull; RInt 5] (sample_memory 11 20 (RObj 50)) = Some c /\
    In (ENativeCall code nargs) (trace c) /\
    nth_error nargs (2 + 1) = Some (RInt 5) /\
    List.length (filter is_slot_store (trace c)) = 1 + count_refs [JObjectTy; Int32Ty].
Proof.
  apply (X9_primitive_argument (fun _ => false) (sample_jc false "LLI")
           (sample_compiled false "LLI") (sample_world 4)
           [RObj 3; RObj 10; RNull; RInt 5] (sample_memory 11 20 (RObj 50)) 3 2
           [JObjectTy; Int32Ty] 1 Int32Ty (RInt 5)).
  - vm_compute; reflexivity.
  - split; [reflexivity|]. split; [vm_compute; reflexivity|]. split; [reflexivity|].
    intros f xs m. reflexivity.
  - reflexivity.
  - reflexivity.
  - reflexivity.
  - reflexivity.
Defined.

(** X10: the foreign function starts in a memory in which the thread state
    is native, the stub's frame is on top of the thread's frame stack and is
    the top of the managed stack, the cookie field holds the segment state,
    and the frame is complete: its size field gives the number of its slots,
    its method field the method, and every slot holds the reference stored
    for it (none is left unfilled). *)
Theorem X10_memory_at_foreign_call (verify : Function -> bool) (jc : JniCompiler)
    (cm : Compiled) (w : World) (fargs : list rv) (mem0 : memory) (m e : nat) :
  Compile verify jc = Some cm ->
  well_called w (func_ cm) fargs mem0 m e ->
  let t := current_thread w in
  exists c dtys avals code nargs m_n sf,
    run_stub w (func_ cm) fargs mem0 = Some c /\
    declared_types jc = Some dtys /\
    fargs = RObj m :: avals /\
    In (ENativeCall code nargs) (trace c) /\
    mem c = memory_at_return t e (snd (native_code w code nargs m_n))
                             (heap mem0 e LocalRefCookieOffset) (frame_stack mem0) /\
    heap m_n t StateOffset = RState kNative /\
    heap m_n t TopOfManagedStackOffset = RHeader 2 /\
    heap m_n e LocalRefCookieOffset = heap mem0 e SegmentStateOffset /\
    heap m_n e SegmentStateOffset = heap mem0 e SegmentStateOffset /\
    frame_stack m_n = RArtFrame :: frame_stack mem0 /\
    shadow m_n = Some sf /\
    sf_header sf 0 = RInt (Z.of_nat (List.length (sf_slots sf))) /\
    sf_header sf 2 = RObj m /\
    List.length (sf_slots sf) = 1 + count_refs dtys /\
    slot_stores 0 (sf_slots sf) = filter is_slot_store (trace c).
Proof.
  intros HC Hw t.
  destruct (run_stub_spec verify jc cm w fargs mem0 m e HC Hw)
    as (r & dtys & avals & R & Hres & -> & Hlen & Hrun).
  cbv zeta in Hrun.
  set (st := IsStatic (method_ jc)) in *. set (atys := actual_types st dtys) in *.
  assert (Hsl : List.length (stored_refs st (heap mem0 m DeclaringClassOffset) atys avals)
                = sirt_size_of st atys).
  { unfold stored_refs, sirt_size_of, first_slot. rewrite length_app.
    rewrite ref_values_length by exact Hlen. destruct st; reflexivity. }
  eexists. exists dtys, avals, (heap mem0 m NativeMethodOffset),
             (native_args st e atys avals),
             (memory_at_call t m e st atys avals mem0).
  eexists.
  split; [exact Hrun|]. split; [exact (proj2 (proj2 Hres))|]. split; [reflexivity|].
  cbn [trace mem].
  split; [apply expected_trace_native_call|]. split; [reflexivity|].
  unfold memory_at_call. cbn [heap frame_stack shadow].
  split; [unfold hupd; cbn; now rewrite Nat.eqb_refl|].
  split; [unfold hupd; cbn; now rewrite Nat.eqb_refl|].
  split; [apply hupd_same|].
  split; [reflexivity|]. split; [reflexivity|]. split; [reflexivity|].
  cbn [sf_header sf_slots]. rewrite Hsl.
  split; [reflexivity|]. split; [reflexivity|].
  split.
  - unfold sirt_size_of, atys, actual_types, first_slot, count_refs.
    rewrite filter_app, length_app. destruct st; simpl; lia.
  - symmetry. apply expected_trace_slot_stores.
Qed.

Lemma X10_witness :
  let t := current_thread (sample_world 4) in
  exists c dtys avals code nargs m_n sf,
    run_stub (sample_world 4) (func_ (sample_compiled false "LLI"))
             [RObj 3; RObj 10; RNull; RInt 5] (sample_memory 11 20 (RObj 50)) = Some c /\
    declared_types (sample_jc false "LLI") = Some dtys /\
    [RObj 3; RObj 10; RNull; RInt 5] = RObj 3 :: avals /\
    In (ENativeCall code nargs) (trace c) /\
    mem c = memory_at_return t 2 (snd (native_code (sample_world 4) code nargs m_n))
              (heap (sample_memory 11 20 (RObj 50)) 2 LocalRefCookieOffset)
              (frame_stack (sample_memory 11 20 (RObj 50))) /\
    heap m_n t StateOffset = RState kNative /\
    heap m_n t TopOfManagedStackOffset = RHeader 2 /\
    heap m_n 2 LocalRefCookieOffset =
    heap (sample_memory 11 20 (RObj 50)) 2 SegmentStateOffset /\
    heap m_n 2 SegmentStateOffset =
    heap (sample_memory 11 20 (RObj 50)) 2 SegmentStateOffset /\
    frame_stack m_n = RArtFrame :: frame_stack (sample_memory 11 20 (RObj 50)) /\
    shadow m_n = Some sf /\
    sf_header sf 0 = RInt (Z.of_nat (List.length (sf_slots sf))) /\
    sf_header sf 2 = RObj 3 /\
    List.length (sf_slots sf) = 1 + count_refs dtys /\
    slot_stores 0 (sf_slots sf) = filter is_slot_store (trace c).
Proof.
  apply (X10_memory_at_foreign_call (fun _ => false) (sample_jc false "LLI")
           (sample_compiled false "LLI") (sample_world 4)
           [RObj 3; RObj 10; RNull; RInt 5] (sample_memory 11 20 (RObj 50)) 3 2).
  - vm_compute; reflexivity.
  - split; [reflexivity|]. split; [vm_compute; reflexivity|]. split; [reflexivity|].
    intros f xs m. reflexivity.
Defined.

Lemma hupd_other (h : nat -> Offset -> rv) (a : nat) (o : Offset) (v : rv)
    (a' : nat) (o' : Offset) :
  ~ (a' = a /\ o' = o) -> hupd h a o v a' o' = h a' o'.
Proof.
  intros H. unfold hupd, Offset_eqb.
  destruct (Nat.eqb_spec (Offset_code o) (Offset_code o')) as [Ho|Ho]; [|reflexivity].
  destruct (Nat.eqb_spec a a') as [Ha|Ha]; [|reflexivity].
  exfalso. apply H. split; [congruence|].
  destruct o, o'; try discriminate Ho; reflexivity.
Qed.

(** X11: when the stub has returned the thread state is runnable and the
    thread's frame stack is as it was before the call (the push and the pop
    balance).  The stub itself writes no field of a runtime object but the
    thread's state and top-of-managed-stack fields and the environment's
    cookie and segment-state fields: every other field reaches the foreign
    function as the caller left it and reaches the caller as the foreign
    function left it. *)
Theorem X11_writes_confined (verify : Function -> bool) (jc : JniCompiler)
    (cm : Compiled) (w : World) (fargs : list rv) (mem0 : memory) (m e : nat) :
  Compile verify jc = Some cm ->
  well_called w (func_ cm) fargs mem0 m e ->
  let t := current_thread w in
  exists c code nargs m_n,
    run_stub w (func_ cm) fargs mem0 = Some c /\
    In (ENativeCall code nargs) (trace c) /\
    mem c = memory_at_return t e (snd (native_code w code nargs m_n))
                             (heap mem0 e LocalRefCookieOffset) (frame_stack mem0) /\
    heap (mem c) t StateOffset = RState kRunnable /\
    frame_stack (mem c) = frame_stack mem0 /\
    shadow (mem c) = shadow (snd (native_code w code nargs m_n)) /\
    (forall a o,
       ~ (a = t /\ o = TopOfManagedStackOffset) ->
       ~ (a = t /\ o = StateOffset) ->
       ~ (a = e /\ o = LocalRefCookieOffset) ->
       heap m_n a o = heap mem0 a o) /\
    (forall a o,
       ~ (a = t /\ o = StateOffset) ->
       ~ (a = e /\ o = SegmentStateOffset) ->
       ~ (a = e /\ o = LocalRefCookieOffset) ->
       heap (mem c) a o = heap (snd (native_code w code nargs m_n)) a o).
Proof.
  intros HC Hw t.
  destruct (run_stub_spec verify jc cm w fargs mem0 m e HC Hw)
    as (r & dtys & avals & R & Hres & -> & Hlen & Hrun).
  cbv zeta in Hrun.
  set (st := IsStatic (method_ jc)) in *. set (atys := actual_types st dtys) in *.
  eexists. exists (heap mem0 m NativeMethodOffset), (native_args st e atys avals),
             (memory_at_call t m e st atys avals mem0).
  split; [exact Hrun|]. cbn [trace mem].
  split; [apply expected_trace_native_call|]. split; [reflexivity|].
  unfold memory_at_return, memory_at_call. cbn [heap frame_stack shadow].
  split; [unfold hupd; cbn; now rewrite Nat.eqb_refl|].
  split; [reflexivity|]. split; [reflexivity|]. split.
  - intros a o H1 H2 H3. now rewrite !hupd_other.
  - intros a o H1 H2 H3. now rewrite !hupd_other.
Qed.

Lemma X11_witness :
  let t := current_thread (sample_world 4) in
  exists c code nargs m_n,
    run_stub (sample_world 4) (func_ (sample_compiled false "LLI"))
             [RObj 3; RObj 10; RNull; RInt 5] (sample_memory 11 20 (RObj 50)) = Some c /\
    In (ENativeCall code nargs) (trace c) /\
    mem c = memory_at_return t 2 (snd (native_code (sample_world 4) code nargs m_n))
              (heap (sample_memory 11 20 (RObj 50)) 2 LocalRefCookieOffset)
              (frame_stack (sample_memory 11 20 (RObj 50))) /\
    heap (mem c) t StateOffset = RState kRunnable /\
    frame_stack (mem c) = frame_stack (sample_memory 11 20 (RObj 50)) /\
    shadow (mem c) = shadow (snd (native_code (sample_world 4) code nargs m_n)) /\
    (forall a o,
       ~ (a = t /\ o = TopOfManagedStackOffset) ->
       ~ (a = t /\ o = StateOffset) ->
       ~ (a = 2 /\ o = LocalRefCookieOffset) ->
       heap m_n a o = heap (sample_memory 11 20 (RObj 50)) a o) /\
    (forall a o,
       ~ (a = t /\ o = StateOffset) ->
       ~ (a = 2 /\ o = SegmentStateOffset) ->
       ~ (a = 2 /\ o = LocalRefCookieOffset) ->
       heap (mem c) a o = heap (snd (native_code (sample_world 4) code nargs m_n)) a o).
Proof.
  apply (X11_writes_confined (fun _ => false) (sample_jc false "LLI")
           (sample_compiled false "LLI") (sample_world 4)
           [RObj 3; RObj 10; RNull; RInt 5] (sample_memory 11 20 (RObj 50)) 3 2).
  - vm_compute; reflexivity.
  - split; [reflexivity|]. split; [vm_compute; reflexivity|]. split; [reflexivity|].
    intros f xs m. reflexivity.
Defined.

(** *** From the compilation request to the artifact *)

Lemma getJTypes_known (cs : list ascii) :
  (forall c, In c cs -> getJType c <> None) -> exists tys, getJTypes cs = Some tys.
Proof.
  intros H. destruct (getJTypes cs) as [tys|] eqn:E; [now exists tys|].
  apply getJTypes_None in E. destruct E as (c & Hin & Hc). now apply H in Hin.
Qed.

(** X13: for a compilation request whose method is resolved and native and
    whose shorty is not empty and holds known tags only, the constructor and
    [Compile] both succeed; the artifact carries the instruction set and the
    elf index of the compilation unit, and the function the name of the
    resolved method, whose static flag (not the access flags of the request)
    decides whether the stub takes a receiver. *)
Theorem X13_request_to_artifact (verify : Function -> bool)
    (cunit : CompilationUnit) (ocu : OatCompilationUnit) (mth : Method) :
  oat_dex_cache_ ocu (oat_method_idx_ ocu) = Some mth ->
  Z.testbit (oat_access_flags_ ocu) 8 = true ->
  let shorty :=
    list_ascii_of_string (GetMethodShorty (oat_dex_file_ ocu) (oat_method_idx_ ocu)) in
  shorty <> [] ->
  (forall c, In c shorty -> getJType c <> None) ->
  exists jc cm,
    JniCompiler_new cunit ocu = Some jc /\
    Compile verify jc = Some cm /\
    compiled_method cm =
    mkCompiledMethod (GetInstructionSet cunit) (GetElfIndex cunit) /\
    fn_name (func_ cm) = LLVMLongName mth /\
    List.length (fn_args (func_ cm)) =
    (if IsStatic mth then 0 else 1) + List.length shorty.
Proof.
  intros Hm Hbit shorty Hne Hknown.
  unfold JniCompiler_new. rewrite Hm.
  destruct (Z.eqb_spec (Z.land (oat_access_flags_ ocu) kAccNative) 0) as [H0|H0].
  { apply land_kAccNative in H0. congruence. }
  eexists. 
  set (jc := mkJniCompiler cunit (oat_access_flags_ ocu) (oat_method_idx_ ocu)
                           (oat_dex_file_ ocu) mth).
  assert (Hs : shorty_of jc = shorty) by reflexivity.
  destruct shorty as [|r tail] eqn:Hsh; [now destruct Hne|].
  destruct (getJType r) as [rt|] eqn:Hrt; [|now destruct (Hknown r (or_introl eq_refl))].
  destruct (getJTypes_known tail) as (dtys & Hd).
  { intros c Hc. apply Hknown. now right. }
  assert (Hres : resolved jc r dtys).
  { unfold resolved, ret_shorty_of, declared_types. rewrite Hs. simpl.
    repeat split; congruence. }
  eexists. split; [reflexivity|].
  split; [apply (Compile_eq verify jc r rt dtys Hres Hrt)|].
  cbn [compiled_method func_ fn_name fn_args cunit_ method_ jc List.length].
  split; [reflexivity|]. split; [reflexivity|].
  rewrite named_args_length. unfold actual_types. rewrite length_app.
  apply getJTypes_length in Hd. rewrite Hd.
  destruct (IsStatic mth); simpl; lia.
Qed.

Lemma X13_witness :
  let shorty :=
    list_ascii_of_string
      (GetMethodShorty (oat_dex_file_ (sample_oat 257 true true "ILI"))
                       (oat_method_idx_ (sample_oat 257 true true "ILI"))) in
  exists jc cm,
    JniCompiler_new sample_cunit (sample_oat 257 true true "ILI") = Some jc /\
    Compile (fun _ => false) jc = Some cm /\
    compiled_method cm =
    mkCompiledMethod (GetInstructionSet sample_cunit) (GetElfIndex sample_cunit) /\
    fn_name (func_ cm) = LLVMLongName (mkMethod true "stub") /\
    List.length (fn_args (func_ cm)) =
    (if IsStatic (mkMethod true "stub") then 0 else 1) + List.length shorty.
Proof.
  apply (X13_request_to_artifact (fun _ => false) sample_cunit
           (sample_oat 257 true true "ILI") (mkMethod true "stub")).
  - reflexivity.
  - reflexivity.
  - discriminate.
  - intros c [<-|[<-|[<-|[]]]]; discriminate.
Defined.
